(** * nyx-memory: the engagement persistence and consistency layer

    A shallow embedding of the TypeScript sources
      - tools/engagement.ts  (slugify, buildIndexEntry, createEngagement,
                              closeEngagement, loadActiveMetadata,
                              saveMetadataAndRender)
      - tools/hosts.ts       (mergeServices, discoverHost)
      - tools/findings.ts    (nextFindingId, addFinding, updateFinding)
      - tools/evidence.ts    (saveEvidence)
      - storage/state.ts     (getActiveEngagementId, requireActiveEngagement,
                              getIndex, updateIndexEntry, ...)
    and the properties of the data they persist; then, for the further
    properties,
      - tools/engagement.ts  (listEngagements, resumeEngagement,
                              engagementStatus)
      - tools/hosts.ts       (updateHost)
      - tools/credentials.ts (nextCredId, addCredential)
      - tools/tracking.ts    (nextTodoId, logDeadEnd, addTodo, completeTodo)
      - tools/narrative.ts   (updateAttackPath, updateExecutiveSummary)
      - tools/commandLog.ts  (nextCmdId, detectTool, logCommand)
      - tools/ingest.ts      (ingestToolOutput)
      - parsers/index.ts     (getParser)
      - storage/state.ts     (removeIndexEntry).

    Modelling conventions.
      - A JS string is a [string] (a list of 8-bit characters); [toLowerCase]
        lowers the ASCII letters, and the character classes of the regular
        expressions are the ASCII ones the source writes ([a-z0-9]).
      - A JS number that counts or identifies something (ports, id suffixes)
        is an exact integer ([Z] or [N]); a CVSS score is a rational ([Q]):
        every finite double is one, and [<] and [>] on finite doubles agree
        with the order of the rationals.
      - The files under the data directory are the fields of [World]; every
        [await]ed call is a step of the state-and-error monad [M].  A thrown
        error keeps the files written before it.
      - [now()] reads the clock of the world and advances it.
      - White space ([trim], [\s], what [parseInt] skips) is the ASCII white
        space: tab, line feed, vertical tab, form feed, carriage return and
        space.
      - What a parser makes of a file, and what [fs.readFile] answers for a
        path outside the data directory, are arguments of [ingestToolOutput];
        [path.basename] is the POSIX one. *)

From Stdlib Require Import String Ascii ZArith NArith QArith List Lia.
From Stdlib Require Import DecimalString DecimalN.
From stdpp Require Import gmap strings list.

Local Open Scope string_scope.
Local Open Scope list_scope.
Local Open Scope Z_scope.

(** ** JavaScript string primitives *)

Module Js.

(** Truthiness of a string: only the empty string is falsy. *)
Definition truthy (s : string) : bool :=
  match s with EmptyString => false | String _ _ => true end.

(** [a || b] on strings. *)
Definition or_else (a b : string) : string := if truthy a then a else b.

(** [a || b] where [a] may be [undefined]. *)
Definition opt_or (a : option string) (b : string) : string :=
  match a with Some s => or_else s b | None => b end.

Definition is_upper (c : ascii) : bool :=
  ((65 <=? nat_of_ascii c)%nat && (nat_of_ascii c <=? 90)%nat)%bool.

Definition is_lower (c : ascii) : bool :=
  ((97 <=? nat_of_ascii c)%nat && (nat_of_ascii c <=? 122)%nat)%bool.

Definition is_digit (c : ascii) : bool :=
  ((48 <=? nat_of_ascii c)%nat && (nat_of_ascii c <=? 57)%nat)%bool.

Definition lower_char (c : ascii) : ascii :=
  if is_upper c then ascii_of_nat (nat_of_ascii c + 32) else c.

(** [s.toLowerCase()] *)
Fixpoint toLowerCase (s : string) : string :=
  match s with
  | EmptyString => EmptyString
  | String c r => String (lower_char c) (toLowerCase r)
  end.

(** [s.slice(0, n)] *)
Fixpoint slice0 (n : nat) (s : string) : string :=
  match n, s with
  | O, _ => EmptyString
  | _, EmptyString => EmptyString
  | S k, String c r => String c (slice0 k r)
  end.

(** [s.includes(c)] for a one-character needle. *)
Fixpoint includes_char (c : ascii) (s : string) : bool :=
  match s with
  | EmptyString => false
  | String d r => if Ascii.eqb c d then true else includes_char c r
  end.

(** The last character, if any. *)
Fixpoint last_char (s : string) : option ascii :=
  match s with
  | EmptyString => None
  | String c EmptyString => Some c
  | String _ r => last_char r
  end.

Definition first_char (s : string) : option ascii :=
  match s with EmptyString => None | String c _ => Some c end.

(** [s.endsWith(t)] *)
Definition endsWith (s t : string) : bool :=
  let n := String.length s in
  let k := String.length t in
  ((k <=? n)%nat && String.eqb (substring (n - k) k s) t)%bool.

(** No two adjacent hyphens. *)
Fixpoint no_double_hyphen (s : string) : bool :=
  match s with
  | EmptyString => true
  | String c r =>
      match r with
      | String d _ =>
          (negb (Ascii.eqb c "-" && Ascii.eqb d "-") && no_double_hyphen r)%bool
      | EmptyString => true
      end
  end.

Fixpoint forallb_string (p : ascii -> bool) (s : string) : bool :=
  match s with
  | EmptyString => true
  | String c r => (p c && forallb_string p r)%bool
  end.

End Js.

(** ** tools/engagement.ts: slugify *)

(** The class [[a-z0-9]] of the first regular expression. *)
Definition slug_alnum (c : ascii) : bool := (Js.is_lower c || Js.is_digit c)%bool.

(** [.replace(/[^a-z0-9]+/g, "-")]: every maximal run of characters outside
    the class becomes one hyphen.  [in_run] says that the previous character
    belonged to the run being replaced. *)
Fixpoint replace_runs (in_run : bool) (s : string) : string :=
  match s with
  | EmptyString => EmptyString
  | String c r =>
      if slug_alnum c then String c (replace_runs false r)
      else if in_run then replace_runs true r
      else String "-" (replace_runs true r)
  end.

(** The [^-] alternative of [.replace(/^-|-$/g, "")]. *)
Definition strip_leading_hyphen (s : string) : string :=
  match s with
  | String c r => if Ascii.eqb c "-" then r else s
  | EmptyString => EmptyString
  end.

(** The [-$] alternative. *)
Fixpoint strip_trailing_hyphen (s : string) : string :=
  match s with
  | EmptyString => EmptyString
  | String c r =>
      match r with
      | EmptyString => if Ascii.eqb c "-" then EmptyString else s
      | String _ _ => String c (strip_trailing_hyphen r)
      end
  end.

Definition slugify (text : string) : string :=
  Js.slice0 40
    (strip_trailing_hyphen
       (strip_leading_hyphen
          (replace_runs false (Js.toLowerCase text)))).

(** ** types.ts: the data model *)

Inductive Severity := critical | high | medium | low | info.
Inductive FindingStatus := confirmed | potential | exploited | false_positive.
Inductive Proto := tcp | udp.
Inductive EngagementStatus := active | paused | completed.
Inductive CredType := cred_password | cred_hash | cred_token | cred_key | cred_certificate.
Inductive Priority := prio_high | prio_medium | prio_low.
Inductive TodoStatus := pending | todo_completed.
Inductive Source := src_mcp | src_cli | src_nyx_log.

#[global] Instance Proto_eq_dec : EqDecision Proto.
Proof. solve_decision. Defined.

#[global] Instance TodoStatus_eq_dec : EqDecision TodoStatus.
Proof. solve_decision. Defined.

Record Finding := mkFinding {
  f_id : string;
  f_host : string;
  f_vulnerability : string;
  f_severity : Severity;
  f_cvss : option Q;
  f_status : FindingStatus;
  f_evidence_file : option string;
  f_notes : string;
  f_created_at : string;
  f_updated_at : string
}.

Record Service := mkService {
  svc_port : Z;
  svc_proto : Proto;
  svc_service : string;
  svc_version : string;
  svc_notes : string
}.

Record Host := mkHost {
  h_ip : string;
  h_hostname : string;
  h_os : string;
  h_first_seen : string;
  h_updated_at : string;
  h_services : list Service;
  h_enumeration : string;
  h_vulnerabilities : string;
  h_exploitation : string;
  h_post_exploitation : string;
  h_credentials : string;
  h_key_commands : string
}.

Record Credential := mkCredential {
  c_id : string;
  c_source : string;
  c_username : string;
  c_password_or_hash : string;
  c_cred_type : CredType;
  c_access_level : string;
  c_verified : bool;
  c_created_at : string
}.

Record DeadEnd := mkDeadEnd {
  de_timestamp : string;
  de_technique : string;
  de_target : string;
  de_reason : string
}.

Record Todo := mkTodo {
  t_id : string;
  t_description : string;
  t_priority : Priority;
  t_status : TodoStatus;
  t_created_at : string;
  t_completed_at : option string
}.

Record EvidenceEntry := mkEvidenceEntry {
  ev_filename : string;
  ev_description : string;
  ev_related_finding_id : option string;
  ev_created_at : string
}.

Record CommandEntry := mkCommandEntry {
  cmd_id : string;
  cmd_command : string;
  cmd_tool : string;
  cmd_target : string;
  cmd_started_at : string;
  cmd_finished_at : string;
  cmd_duration_seconds : option Q;
  cmd_exit_code : option Z;
  cmd_evidence_file : option string;
  cmd_parsed : bool;
  cmd_source : Source
}.

Record AttackPathStep := mkAttackPathStep {
  ap_step : Z;
  ap_description : string;
  ap_timestamp : string
}.

Record EngagementMetadata := mkMeta {
  m_id : string;
  m_target : string;
  m_scope : list string;
  m_rules_of_engagement : string;
  m_status : EngagementStatus;
  m_created_at : string;
  m_updated_at : string;
  m_executive_summary : string;
  m_attack_path : list AttackPathStep;
  m_findings : list Finding;
  m_hosts : list Host;
  m_credentials : list Credential;
  m_dead_ends : list DeadEnd;
  m_todos : list Todo;
  m_evidence_index : list EvidenceEntry;
  m_command_log : list CommandEntry;
  m_schema_version : Z
}.

Record AppState := mkAppState { current_engagement_id : option string }.

Record IndexEntry := mkIndexEntry {
  ie_id : string;
  ie_target : string;
  ie_status : EngagementStatus;
  ie_created_at : string;
  ie_updated_at : string;
  finding_count : nat;
  host_count : nat;
  credential_count : nat;
  command_count : nat
}.

(** [ServiceData]: a service as a caller of [discoverHost] supplies it. *)
Record ServiceData := mkServiceData {
  sd_port : Z;
  sd_proto : Proto;
  sd_service : option string;
  sd_version : option string;
  sd_notes : option string
}.

(** Assignments to one field of a record ([meta.findings = ...]). *)
Definition set_updated_at (ts : string) (m : EngagementMetadata) : EngagementMetadata :=
  mkMeta (m_id m) (m_target m) (m_scope m) (m_rules_of_engagement m) (m_status m)
    (m_created_at m) ts (m_executive_summary m) (m_attack_path m) (m_findings m)
    (m_hosts m) (m_credentials m) (m_dead_ends m) (m_todos m) (m_evidence_index m)
    (m_command_log m) (m_schema_version m).

Definition set_status (s : EngagementStatus) (m : EngagementMetadata) : EngagementMetadata :=
  mkMeta (m_id m) (m_target m) (m_scope m) (m_rules_of_engagement m) s
    (m_created_at m) (m_updated_at m) (m_executive_summary m) (m_attack_path m) (m_findings m)
    (m_hosts m) (m_credentials m) (m_dead_ends m) (m_todos m) (m_evidence_index m)
    (m_command_log m) (m_schema_version m).

Definition set_executive_summary (s : string) (m : EngagementMetadata) : EngagementMetadata :=
  mkMeta (m_id m) (m_target m) (m_scope m) (m_rules_of_engagement m) (m_status m)
    (m_created_at m) (m_updated_at m) s (m_attack_path m) (m_findings m)
    (m_hosts m) (m_credentials m) (m_dead_ends m) (m_todos m) (m_evidence_index m)
    (m_command_log m) (m_schema_version m).

Definition set_findings (fs : list Finding) (m : EngagementMetadata) : EngagementMetadata :=
  mkMeta (m_id m) (m_target m) (m_scope m) (m_rules_of_engagement m) (m_status m)
    (m_created_at m) (m_updated_at m) (m_executive_summary m) (m_attack_path m) fs
    (m_hosts m) (m_credentials m) (m_dead_ends m) (m_todos m) (m_evidence_index m)
    (m_command_log m) (m_schema_version m).

Definition set_hosts (hs : list Host) (m : EngagementMetadata) : EngagementMetadata :=
  mkMeta (m_id m) (m_target m) (m_scope m) (m_rules_of_engagement m) (m_status m)
    (m_created_at m) (m_updated_at m) (m_executive_summary m) (m_attack_path m) (m_findings m)
    hs (m_credentials m) (m_dead_ends m) (m_todos m) (m_evidence_index m)
    (m_command_log m) (m_schema_version m).

Definition set_evidence_index (es : list EvidenceEntry) (m : EngagementMetadata) : EngagementMetadata :=
  mkMeta (m_id m) (m_target m) (m_scope m) (m_rules_of_engagement m) (m_status m)
    (m_created_at m) (m_updated_at m) (m_executive_summary m) (m_attack_path m) (m_findings m)
    (m_hosts m) (m_credentials m) (m_dead_ends m) (m_todos m) es
    (m_command_log m) (m_schema_version m).

Definition set_h_hostname (s : string) (h : Host) : Host :=
  mkHost (h_ip h) s (h_os h) (h_first_seen h) (h_updated_at h) (h_services h)
    (h_enumeration h) (h_vulnerabilities h) (h_exploitation h)
    (h_post_exploitation h) (h_credentials h) (h_key_commands h).

Definition set_h_os (s : string) (h : Host) : Host :=
  mkHost (h_ip h) (h_hostname h) s (h_first_seen h) (h_updated_at h) (h_services h)
    (h_enumeration h) (h_vulnerabilities h) (h_exploitation h)
    (h_post_exploitation h) (h_credentials h) (h_key_commands h).

Definition set_h_services (l : list Service) (h : Host) : Host :=
  mkHost (h_ip h) (h_hostname h) (h_os h) (h_first_seen h) (h_updated_at h) l
    (h_enumeration h) (h_vulnerabilities h) (h_exploitation h)
    (h_post_exploitation h) (h_credentials h) (h_key_commands h).

Definition set_h_updated_at (ts : string) (h : Host) : Host :=
  mkHost (h_ip h) (h_hostname h) (h_os h) (h_first_seen h) ts (h_services h)
    (h_enumeration h) (h_vulnerabilities h) (h_exploitation h)
    (h_post_exploitation h) (h_credentials h) (h_key_commands h).

Definition set_f_severity (s : Severity) (f : Finding) : Finding :=
  mkFinding (f_id f) (f_host f) (f_vulnerability f) s (f_cvss f) (f_status f)
    (f_evidence_file f) (f_notes f) (f_created_at f) (f_updated_at f).

Definition set_f_cvss (c : option Q) (f : Finding) : Finding :=
  mkFinding (f_id f) (f_host f) (f_vulnerability f) (f_severity f) c (f_status f)
    (f_evidence_file f) (f_notes f) (f_created_at f) (f_updated_at f).

Definition set_f_status (s : FindingStatus) (f : Finding) : Finding :=
  mkFinding (f_id f) (f_host f) (f_vulnerability f) (f_severity f) (f_cvss f) s
    (f_evidence_file f) (f_notes f) (f_created_at f) (f_updated_at f).

Definition set_f_evidence_file (e : option string) (f : Finding) : Finding :=
  mkFinding (f_id f) (f_host f) (f_vulnerability f) (f_severity f) (f_cvss f)
    (f_status f) e (f_notes f) (f_created_at f) (f_updated_at f).

Definition set_f_notes (n : string) (f : Finding) : Finding :=
  mkFinding (f_id f) (f_host f) (f_vulnerability f) (f_severity f) (f_cvss f)
    (f_status f) (f_evidence_file f) n (f_created_at f) (f_updated_at f).

Definition set_f_updated_at (ts : string) (f : Finding) : Finding :=
  mkFinding (f_id f) (f_host f) (f_vulnerability f) (f_severity f) (f_cvss f)
    (f_status f) (f_evidence_file f) (f_notes f) (f_created_at f) ts.

Definition set_svc_service (s : string) (v : Service) : Service :=
  mkService (svc_port v) (svc_proto v) s (svc_version v) (svc_notes v).

Definition set_svc_version (s : string) (v : Service) : Service :=
  mkService (svc_port v) (svc_proto v) (svc_service v) s (svc_notes v).

Definition set_svc_notes (s : string) (v : Service) : Service :=
  mkService (svc_port v) (svc_proto v) (svc_service v) (svc_version v) s.

(** ** Numbers and their decimal text *)

Module JsNum.

(** [String(n)] for an integer [n]. *)
Definition to_string (z : Z) : string :=
  match z with
  | Zneg p => String "-" (NilEmpty.string_of_uint (N.to_uint (Npos p)))
  | _ => NilEmpty.string_of_uint (N.to_uint (Z.to_N z))
  end.

(** White space that [parseInt] skips. *)
Definition is_space (c : ascii) : bool :=
  let n := nat_of_ascii c in
  ((9 <=? n)%nat && (n <=? 13)%nat || (n =? 32)%nat)%bool.

Fixpoint skip_spaces (s : string) : string :=
  match s with
  | String c r => if is_space c then skip_spaces r else s
  | EmptyString => EmptyString
  end.

(** The longest prefix of decimal digits, as a decimal numeral. *)
Fixpoint digits_prefix (s : string) : Decimal.uint :=
  match s with
  | EmptyString => Decimal.Nil
  | String c r =>
      match c with
      | "0"%char => Decimal.D0 (digits_prefix r)
      | "1"%char => Decimal.D1 (digits_prefix r)
      | "2"%char => Decimal.D2 (digits_prefix r)
      | "3"%char => Decimal.D3 (digits_prefix r)
      | "4"%char => Decimal.D4 (digits_prefix r)
      | "5"%char => Decimal.D5 (digits_prefix r)
      | "6"%char => Decimal.D6 (digits_prefix r)
      | "7"%char => Decimal.D7 (digits_prefix r)
      | "8"%char => Decimal.D8 (digits_prefix r)
      | "9"%char => Decimal.D9 (digits_prefix r)
      | _ => Decimal.Nil
      end
  end.

(** [parseInt(s, 10)]; [None] is [NaN]. *)
Definition parseInt (s : string) : option Z :=
  let s1 := skip_spaces s in
  let '(neg, s2) :=
    match s1 with
    | String "-"%char r => (true, r)
    | String "+"%char r => (false, r)
    | _ => (false, s1)
    end in
  match digits_prefix s2 with
  | Decimal.Nil => None
  | d => let v := Z.of_N (N.of_uint d) in Some (if neg then - v else v)
  end.

(** [s.padStart(n, c)] *)
Definition padStart (n : nat) (c : ascii) (s : string) : string :=
  string_of_list_ascii (repeat c (n - String.length s)) +:+ s.

(** [s.replace(pat, "")] with a string pattern: the first occurrence goes. *)
Fixpoint remove_first (pat s : string) : string :=
  match s with
  | EmptyString => EmptyString
  | String c r =>
      if String.prefix pat s
      then substring (String.length pat) (String.length s - String.length pat) s
      else String c (remove_first pat r)
  end.

End JsNum.

(** ** tools/findings.ts: nextFindingId *)

(** [parseInt(f.id.replace("F-", ""), 10)] *)
Definition finding_number (f : Finding) : option Z :=
  JsNum.parseInt (JsNum.remove_first "F-" (f_id f)).

(** One turn of the [for] loop: [if (n > max) max = n], false on [NaN]. *)
Definition max_step (max : Z) (n : option Z) : Z :=
  match n with
  | Some k => if max <? k then k else max
  | None => max
  end.

Definition max_finding_number (existing : list Finding) : Z :=
  fold_left (fun max f => max_step max (finding_number f)) existing 0.

(** [`F-${String(n).padStart(3, "0")}`] *)
Definition finding_id_of (n : Z) : string :=
  "F-" +:+ JsNum.padStart 3 "0" (JsNum.to_string n).

Definition nextFindingId (existing : list Finding) : string :=
  finding_id_of (max_finding_number existing + 1).

(** ** tools/hosts.ts: mergeServices *)

Definition same_endpoint (a b : Service) : Prop :=
  svc_port a = svc_port b /\ svc_proto a = svc_proto b.

#[global] Instance same_endpoint_dec a b : Decision (same_endpoint a b).
Proof. unfold same_endpoint. apply _. Defined.

(** The three guarded assignments to the matching entry. *)
Definition overwrite_service (svc matched : Service) : Service :=
  let m1 := if Js.truthy (svc_service svc)
            then set_svc_service (svc_service svc) matched else matched in
  let m2 := if Js.truthy (svc_version svc)
            then set_svc_version (svc_version svc) m1 else m1 in
  if Js.truthy (svc_notes svc) then set_svc_notes (svc_notes svc) m2 else m2.

(** One turn of the loop over [incoming]: [merged.find] returns the first
    entry with the port and protocol of [svc]; it is updated in place, or
    [svc] is pushed. *)
Definition merge_service (merged : list Service) (svc : Service) : list Service :=
  match list_find (fun s => same_endpoint s svc) merged with
  | Some (i, matched) => <[i := overwrite_service svc matched]> merged
  | None => merged ++ [svc]
  end.

Definition mergeServices (existing incoming : list Service) : list Service :=
  fold_left merge_service incoming existing.

(** The [params.services.map(...)] of [discoverHost]: what is missing gets
    its default. *)
Definition to_service (s : ServiceData) : Service :=
  mkService (sd_port s) (sd_proto s)
    (Js.opt_or (sd_service s) "unknown")
    (Js.opt_or (sd_version s) "")
    (Js.opt_or (sd_notes s) "").

(** ** The data directory and the monad of the [async] functions *)

(** The [code] attached to a thrown error.  [type_error] is the [TypeError]
    of dereferencing [null]; [loop_fuel] is not an error of the program: it
    marks a [while] loop of the model that ran out of steps. *)
Inductive ErrorCode :=
  | no_active_engagement
  | engagement_not_found
  | host_not_found
  | finding_not_found
  | invalid_cvss
  | invalid_filename
  | type_error
  | loop_fuel.

Inductive Outcome (A : Type) :=
  | Ok (a : A)
  | Throw (e : ErrorCode).
Arguments Ok {A} a.
Arguments Throw {A} e.

(** The files of the data directory.
      - [state_json], [index_json]: [None] while the file does not exist;
      - [metadata_json]: [<id>/metadata.json], keyed by the directory name;
      - [evidence_files]: [<id>/evidence/<filename>], keyed by both names.
        A filename is taken as the name of a directory entry: the names
        [path.join] would resolve to a directory (the empty name, [.], [..])
        are outside the model;
      - [findings_md], [host_md]: the rendered reports.  Rendering is a pure
        function of its argument, so a report is represented by the value it
        was rendered from;
      - [clock], [tick]: the instants [now()] will return, and how many of
        them have been read. *)
Record World := mkWorld {
  state_json : option AppState;
  index_json : option (list IndexEntry);
  metadata_json : gmap string EngagementMetadata;
  evidence_files : gmap (string * string) string;
  findings_md : gmap string EngagementMetadata;
  host_md : gmap (string * string) Host;
  clock : nat -> string;
  tick : nat
}.

Definition M (A : Type) : Type := World -> Outcome A * World.

#[global] Instance M_ret : MRet M := fun A a w => (Ok a, w).

#[global] Instance M_bind : MBind M := fun A B k m w =>
  match m w with
  | (Ok a, w') => k a w'
  | (Throw e, w') => (Throw e, w')
  end.

Definition throw {A : Type} (e : ErrorCode) : M A := fun w => (Throw e, w).

Definition gets {A : Type} (f : World -> A) : M A := fun w => (Ok (f w), w).

Definition modify (f : World -> World) : M unit := fun w => (Ok tt, f w).

(** Dereferencing a value that may be [null]. *)
Definition deref {A : Type} (o : option A) : M A :=
  match o with Some a => mret a | None => throw type_error end.

Definition set_state_json (s : option AppState) (w : World) : World :=
  mkWorld s (index_json w) (metadata_json w) (evidence_files w)
    (findings_md w) (host_md w) (clock w) (tick w).

Definition set_index_json (i : option (list IndexEntry)) (w : World) : World :=
  mkWorld (state_json w) i (metadata_json w) (evidence_files w)
    (findings_md w) (host_md w) (clock w) (tick w).

Definition set_metadata_json (m : gmap string EngagementMetadata) (w : World) : World :=
  mkWorld (state_json w) (index_json w) m (evidence_files w)
    (findings_md w) (host_md w) (clock w) (tick w).

Definition set_evidence_files (e : gmap (string * string) string) (w : World) : World :=
  mkWorld (state_json w) (index_json w) (metadata_json w) e
    (findings_md w) (host_md w) (clock w) (tick w).

Definition set_findings_md (f : gmap string EngagementMetadata) (w : World) : World :=
  mkWorld (state_json w) (index_json w) (metadata_json w) (evidence_files w)
    f (host_md w) (clock w) (tick w).

Definition set_host_md (h : gmap (string * string) Host) (w : World) : World :=
  mkWorld (state_json w) (index_json w) (metadata_json w) (evidence_files w)
    (findings_md w) h (clock w) (tick w).

Definition set_tick (n : nat) (w : World) : World :=
  mkWorld (state_json w) (index_json w) (metadata_json w) (evidence_files w)
    (findings_md w) (host_md w) (clock w) n.

(** [now()]: [new Date().toISOString()] *)
Definition now : M string :=
  fun w => (Ok (clock w (tick w)), set_tick (S (tick w)) w).

(** ** storage/state.ts *)

(** [readJSON(statePath(), { current_engagement_id: null })] *)
Definition getState : M AppState :=
  gets (fun w => default (mkAppState None) (state_json w)).

Definition setState (st : AppState) : M unit :=
  modify (set_state_json (Some st)).

Definition getActiveEngagementId : M (option string) :=
  st ← getState; mret (current_engagement_id st).

Definition setActiveEngagement (id : string) : M unit :=
  setState (mkAppState (Some id)).

Definition clearActiveEngagement : M unit :=
  setState (mkAppState None).

(** [if (!id) throw ...]: [null] and the empty string are both falsy. *)
Definition requireActiveEngagement : M string :=
  id ← getActiveEngagementId;
  match id with
  | Some s => if Js.truthy s then mret s else throw no_active_engagement
  | None => throw no_active_engagement
  end.

(** [readJSON(indexPath(), [])] *)
Definition getIndex : M (list IndexEntry) :=
  gets (fun w => default [] (index_json w)).

Definition writeIndex (index : list IndexEntry) : M unit :=
  modify (set_index_json (Some index)).

(** [index.findIndex(...)], then [index[existing] = entry] or [push].  The
    file lock around it orders processes; one process is modelled. *)
Definition upsert_entry (entry : IndexEntry) (index : list IndexEntry) : list IndexEntry :=
  match list_find (fun e => ie_id e = ie_id entry) index with
  | Some (existing, _) => <[existing := entry]> index
  | None => index ++ [entry]
  end.

Definition updateIndexEntry (entry : IndexEntry) : M unit :=
  index ← getIndex;
  writeIndex (upsert_entry entry index).

Definition removeIndexEntry (id : string) : M unit :=
  index ← getIndex;
  writeIndex (filter (fun e => ie_id e ≠ id) index).

(** [readJSON(getMetadataPath(id), null)] *)
Definition readMetadata (id : string) : M (option EngagementMetadata) :=
  gets (fun w => metadata_json w !! id).

(** [writeJSON(getMetadataPath(id), meta)] *)
Definition writeMetadata (id : string) (meta : EngagementMetadata) : M unit :=
  modify (fun w => set_metadata_json (<[id := meta]> (metadata_json w)) w).

(** [writeFileAtomic(path.join(engDir, "FINDINGS.md"), renderFindings(meta))] *)
Definition writeFindingsMd (id : string) (meta : EngagementMetadata) : M unit :=
  modify (fun w => set_findings_md (<[id := meta]> (findings_md w)) w).

(** [writeFileAtomic(path.join(engDir, "hosts", `${host.ip}.md`), renderHost(host))] *)
Definition writeHostMd (id : string) (host : Host) : M unit :=
  modify (fun w => set_host_md (<[(id, h_ip host) := host]> (host_md w)) w).

(** ** tools/engagement.ts *)

Definition makeEmptyMetadata (id target : string) (scope : list string) (roe : string)
  : M EngagementMetadata :=
  ts ← now;
  mret (mkMeta id target scope roe active ts ts "" [] [] [] [] [] [] [] [] 1).

Definition buildIndexEntry (meta : EngagementMetadata) : IndexEntry :=
  mkIndexEntry (m_id meta) (m_target meta) (m_status meta)
    (m_created_at meta) (m_updated_at meta)
    (length (m_findings meta)) (length (m_hosts meta))
    (length (m_credentials meta)) (length (m_command_log meta)).

(** [index.some((e) => e.id === id)] *)
Definition index_has (index : list IndexEntry) (id : string) : bool :=
  existsb (fun e => String.eqb (ie_id e) id) index.

(** [`${id}-${suffix}`] *)
Definition with_suffix (id : string) (suffix : Z) : string :=
  id +:+ "-" +:+ JsNum.to_string suffix.

(** [while (index.some(...)) suffix++], at most [fuel] tests of the
    condition; [None] when they did not suffice. *)
Fixpoint free_suffix (fuel : nat) (index : list IndexEntry) (id : string) (suffix : Z)
  : option Z :=
  match fuel with
  | O => None
  | S k =>
      if index_has index (with_suffix id suffix)
      then free_suffix k index id (suffix + 1)
      else Some suffix
  end.

(** The collision handling of [createEngagement]. *)
Definition resolve_id (index : list IndexEntry) (id : string) : option string :=
  if index_has index id
  then with_suffix id <$> free_suffix (S (length index)) index id 2
  else Some id.

Record CreateParams := mkCreateParams {
  cp_target : string;
  cp_scope : list string;
  cp_rules_of_engagement : option string
}.

(** The candidate id, from the instant read for [datePrefix]. *)
Definition candidate_id (instant target : string) : string :=
  Js.slice0 10 instant +:+ "-" +:+ slugify target.

Definition createEngagement (params : CreateParams) : M EngagementMetadata :=
  instant ← now;
  let id0 := candidate_id instant (cp_target params) in
  index ← getIndex;
  match resolve_id index id0 with
  | None => throw loop_fuel
  | Some id =>
      meta ← makeEmptyMetadata id (cp_target params) (cp_scope params)
               (Js.opt_or (cp_rules_of_engagement params) "");
      writeMetadata id meta;;
      updateIndexEntry (buildIndexEntry meta);;
      setActiveEngagement id;;
      writeFindingsMd id meta;;
      mret meta
  end.

(** [fs.access(metaPath)] fails when the record does not exist. *)
Definition resumeEngagement (id : string) : M (EngagementMetadata * nat) :=
  o ← readMetadata id;
  match o with
  | None => throw engagement_not_found
  | Some meta =>
      setActiveEngagement id;;
      mret (meta, length (filter (fun t => t_status t = pending) (m_todos meta)))
  end.

(** The status a caller of [closeEngagement] may supply. *)
Inductive CloseStatus := close_completed | close_paused.

Definition status_of_close (s : CloseStatus) : EngagementStatus :=
  match s with close_completed => completed | close_paused => paused end.

Record CloseParams := mkCloseParams {
  cl_status : option CloseStatus;
  cl_executive_summary : option string
}.

Definition closeEngagement (params : CloseParams) : M (string * EngagementStatus) :=
  id ← requireActiveEngagement;
  o ← readMetadata id;
  meta ← deref o;
  let meta := set_status (default completed (status_of_close <$> cl_status params)) meta in
  ts ← now;
  let meta := set_updated_at ts meta in
  let meta :=
    match cl_executive_summary params with
    | Some s => if Js.truthy s then set_executive_summary s meta else meta
    | None => meta
    end in
  writeMetadata id meta;;
  updateIndexEntry (buildIndexEntry meta);;
  clearActiveEngagement;;
  writeFindingsMd id meta;;
  foldr (fun host rest => writeHostMd id host;; rest) (mret tt) (m_hosts meta);;
  mret (m_id meta, m_status meta).

(** [readJSON] answers [null] for a missing record. *)
Definition loadActiveMetadata : M (option EngagementMetadata) :=
  id ← requireActiveEngagement;
  readMetadata id.

Definition saveMetadataAndRender (meta : EngagementMetadata) : M unit :=
  ts ← now;
  let meta := set_updated_at ts meta in
  writeMetadata (m_id meta) meta;;
  updateIndexEntry (buildIndexEntry meta);;
  writeFindingsMd (m_id meta) meta.

(** ** tools/hosts.ts: discoverHost *)

Record DiscoverParams := mkDiscoverParams {
  dp_ip : string;
  dp_hostname : option string;
  dp_os : option string;
  dp_services : option (list ServiceData)
}.

(** Truthiness of an optional string. *)
Definition supplied (o : option string) : bool :=
  match o with Some s => Js.truthy s | None => false end.

(** The "merge additively" branch, before [updated_at] is stamped. *)
Definition merge_host (params : DiscoverParams) (host : Host) : Host :=
  let host :=
    if (supplied (dp_hostname params) && negb (Js.truthy (h_hostname host)))%bool
    then set_h_hostname (Js.opt_or (dp_hostname params) "") host else host in
  let host :=
    if (supplied (dp_os params) && negb (Js.truthy (h_os host)))%bool
    then set_h_os (Js.opt_or (dp_os params) "") host else host in
  match dp_services params with
  | Some services =>
      set_h_services (mergeServices (h_services host) (to_service <$> services)) host
  | None => host
  end.

(** The "create new" branch. *)
Definition new_host (params : DiscoverParams) (first_seen updated : string) : Host :=
  mkHost (dp_ip params)
    (Js.opt_or (dp_hostname params) "")
    (Js.opt_or (dp_os params) "")
    first_seen updated
    (to_service <$> default [] (dp_services params))
    "" "" "" "" "" "".

Definition discoverHost (params : DiscoverParams) : M Host :=
  o ← loadActiveMetadata;
  meta ← deref o;
  '(host, meta) ←
    match list_find (fun h => h_ip h = dp_ip params) (m_hosts meta) with
    | Some (i, host) =>
        let host := merge_host params host in
        ts ← now;
        let host := set_h_updated_at ts host in
        mret (host, set_hosts (<[i := host]> (m_hosts meta)) meta)
    | None =>
        t1 ← now;
        t2 ← now;
        let host := new_host params t1 t2 in
        mret (host, set_hosts (m_hosts meta ++ [host]) meta)
    end;
  saveMetadataAndRender meta;;
  writeHostMd (m_id meta) host;;
  mret host.

(** ** tools/findings.ts: addFinding, updateFinding *)

Definition Qltb (a b : Q) : bool := negb (Qle_bool b a).

(** [params.cvss < 0 || params.cvss > 10] *)
Definition cvss_out_of_range (c : Q) : bool := (Qltb c 0 || Qltb 10 c)%bool.

Record AddFindingParams := mkAddFindingParams {
  af_host : string;
  af_vulnerability : string;
  af_severity : Severity;
  af_cvss : option Q;
  af_status : option FindingStatus;
  af_evidence_file : option string;
  af_notes : option string
}.

(** [s || null] *)
Definition or_null (o : option string) : option string :=
  match o with
  | Some s => if Js.truthy s then Some s else None
  | None => None
  end.

Definition addFinding (params : AddFindingParams) : M Finding :=
  o ← loadActiveMetadata;
  meta ← deref o;
  let id := nextFindingId (m_findings meta) in
  if match af_cvss params with Some c => cvss_out_of_range c | None => false end
  then throw invalid_cvss
  else
    t1 ← now;
    t2 ← now;
    let finding :=
      mkFinding id (af_host params) (af_vulnerability params) (af_severity params)
        (af_cvss params) (default confirmed (af_status params))
        (or_null (af_evidence_file params)) (Js.opt_or (af_notes params) "")
        t1 t2 in
    saveMetadataAndRender (set_findings (m_findings meta ++ [finding]) meta);;
    mret finding.

Record UpdateFindingParams := mkUpdateFindingParams {
  uf_id : string;
  uf_severity : option Severity;
  uf_cvss : option Q;
  uf_status : option FindingStatus;
  uf_evidence_file : option string;
  uf_notes : option string
}.

(** The assignments of [updateFinding] after the CVSS check. *)
Definition update_tail (params : UpdateFindingParams) (finding : Finding) : Finding :=
  let finding :=
    match uf_status params with Some s => set_f_status s finding | None => finding end in
  let finding :=
    if supplied (uf_evidence_file params)
    then set_f_evidence_file (uf_evidence_file params) finding else finding in
  match uf_notes params with
  | Some n =>
      if Js.truthy n
      then set_f_notes
             (if Js.truthy (f_notes finding)
              then f_notes finding +:+ String "010" (String "010" EmptyString) +:+ n
              else n) finding
      else finding
  | None => finding
  end.

Definition updateFinding (params : UpdateFindingParams) : M Finding :=
  o ← loadActiveMetadata;
  meta ← deref o;
  match list_find (fun f => f_id f = uf_id params) (m_findings meta) with
  | None => throw finding_not_found
  | Some (i, finding) =>
      let finding :=
        match uf_severity params with
        | Some s => set_f_severity s finding
        | None => finding
        end in
      finding ←
        match uf_cvss params with
        | Some c =>
            if cvss_out_of_range c then throw invalid_cvss
            else mret (set_f_cvss (Some c) finding)
        | None => mret finding
        end;
      let finding := update_tail params finding in
      ts ← now;
      let finding := set_f_updated_at ts finding in
      saveMetadataAndRender (set_findings (<[i := finding]> (m_findings meta)) meta);;
      mret finding
  end.

(** ** tools/evidence.ts: saveEvidence *)

Record SaveEvidenceParams := mkSaveEvidenceParams {
  se_filename : string;
  se_content : string;
  se_description : option string;
  se_related_finding_id : option string
}.

(** [filename.includes("/") || filename.includes("\\")] *)
Definition has_path_separator (filename : string) : bool :=
  (Js.includes_char "/" filename || Js.includes_char "092" filename)%bool.

(** [fs.access(filePath)] succeeds. *)
Definition evidence_exists (id filename : string) : M bool :=
  gets (fun w => bool_decide (is_Some (evidence_files w !! (id, filename)))).

(** [writeFileAtomic(filePath, content)] *)
Definition writeEvidence (id filename content : string) : M unit :=
  modify (fun w => set_evidence_files (<[(id, filename) := content]> (evidence_files w)) w).

(** [findIndex], then [evidence_index[existingIdx] = entry] or [push]. *)
Definition upsert_evidence (entry : EvidenceEntry) (l : list EvidenceEntry)
  : list EvidenceEntry :=
  match list_find (fun e => ev_filename e = ev_filename entry) l with
  | Some (existingIdx, _) => <[existingIdx := entry]> l
  | None => l ++ [entry]
  end.

Definition saveEvidence (params : SaveEvidenceParams) : M (EvidenceEntry * bool) :=
  if has_path_separator (se_filename params) then throw invalid_filename
  else
    o ← loadActiveMetadata;
    meta ← deref o;
    overwritten ← evidence_exists (m_id meta) (se_filename params);
    writeEvidence (m_id meta) (se_filename params) (se_content params);;
    ts ← now;
    let entry :=
      mkEvidenceEntry (se_filename params)
        (Js.opt_or (se_description params) (se_filename params))
        (or_null (se_related_finding_id params)) ts in
    saveMetadataAndRender
      (set_evidence_index (upsert_evidence entry (m_evidence_index meta)) meta);;
    mret (entry, overwritten).

(** ** Vocabulary of the properties *)

(** The engagement [id] is active and its record [meta] is stored under its
    own id, as [createEngagement] leaves it. *)
Definition active_record (w : World) (id : string) (meta : EngagementMetadata) : Prop :=
  state_json w = Some (mkAppState (Some id)) /\
  Js.truthy id = true /\
  metadata_json w !! id = Some meta /\
  m_id meta = id.

(** A data directory in which nothing has been written yet. *)
Definition empty_world (clk : nat -> string) : World :=
  mkWorld None None ∅ ∅ ∅ ∅ clk 0.



(** Does [addFinding] accept the CVSS of the call? *)
Definition cvss_accepted (c : option Q) : bool :=
  match c with Some q => negb (cvss_out_of_range q) | None => true end.




(** The mutations that go through [saveMetadataAndRender]. *)
Inductive Mutation :=
  | mut_discover_host (params : DiscoverParams)
  | mut_add_finding (params : AddFindingParams)
  | mut_update_finding (params : UpdateFindingParams)
  | mut_save_evidence (params : SaveEvidenceParams).

Definition run_mutation (mu : Mutation) : M unit :=
  match mu with
  | mut_discover_host p => discoverHost p;; mret tt
  | mut_add_finding p => addFinding p;; mret tt
  | mut_update_finding p => updateFinding p;; mret tt
  | mut_save_evidence p => saveEvidence p;; mret tt
  end.

(** The index entry of [id] is the projection of the stored record of [id]. *)
Definition index_entry_matches (w : World) (id : string) : Prop :=
  exists (meta : EngagementMetadata) (i : nat) (entry : IndexEntry),
    metadata_json w !! id = Some meta /\
    list_find (fun e => ie_id e = id) (default [] (index_json w)) = Some (i, entry) /\
    entry = buildIndexEntry meta /\
    ie_id entry = m_id meta /\
    ie_target entry = m_target meta /\
    ie_status entry = m_status meta /\
    ie_created_at entry = m_created_at meta /\
    ie_updated_at entry = m_updated_at meta /\
    finding_count entry = length (m_findings meta) /\
    host_count entry = length (m_hosts meta) /\
    credential_count entry = length (m_credentials meta) /\
    command_count entry = length (m_command_log meta).





(** The record [closeEngagement] stores, from the record it loaded and the
    instant it read. *)
Definition closed_record (params : CloseParams) (ts : string) (meta : EngagementMetadata)
  : EngagementMetadata :=
  let meta := set_status (default completed (status_of_close <$> cl_status params)) meta in
  let meta := set_updated_at ts meta in
  match cl_executive_summary params with
  | Some s => if Js.truthy s then set_executive_summary s meta else meta
  | None => meta
  end.

(** The services of the host a call of [discoverHost] returned. *)
Definition services_of (r : Outcome Host * World) : option (list Service) :=
  match fst r with
  | Ok host => Some (h_services host)
  | Throw _ => None
  end.

(** The pairs of port and protocol of a service list. *)
Definition endpoints (l : list Service) : list (Z * Proto) :=
  (fun s => (svc_port s, svc_proto s)) <$> l.


(** The characters of a slug. *)
Definition slug_char (c : ascii) : bool := (slug_alnum c || Ascii.eqb c "-")%bool.

(** A call throws [invalid_cvss] / returns a value. *)
Definition rejects_cvss {A : Type} (call : M A) (w : World) : Prop :=
  fst (call w) = Throw invalid_cvss.

Definition succeeds {A : Type} (call : M A) (w : World) : Prop :=
  exists a, fst (call w) = Ok a.

(** A CVSS value was supplied and lies outside [0, 10]. *)
Definition outside_0_10 (c : option Q) : Prop :=
  exists q, c = Some q /\ (q < 0 \/ 10 < q)%Q.

(** *** Worlds and arguments of the worked examples *)

Definition noon : nat -> string := fun _ => "2026-03-01T12:00:00.000Z".

Definition test_corp : CreateParams :=
  mkCreateParams "Test Corp" ["10.0.0.0/24"] None.

(** The world after [createEngagement(test_corp)] on an empty directory. *)
Definition created_world : World := snd (createEngagement test_corp (empty_world noon)).

Definition finding_with (c : option Q) : AddFindingParams :=
  mkAddFindingParams "10.0.0.1" "SQL Injection in /api/users" critical c None None None.

Definition update_with (id : string) (c : option Q) (n : option string) : UpdateFindingParams :=
  mkUpdateFindingParams id None c None None n.

(** The world after a first finding, [F-001], has been added. *)
Definition one_finding_world : World :=
  snd (addFinding (finding_with (Some (98 # 10))) created_world).

Definition ssh_first : DiscoverParams :=
  mkDiscoverParams "10.0.0.1" (Some "gateway.test.corp") (Some "Linux 5.x")
    (Some [mkServiceData 22 tcp (Some "ssh") (Some "OpenSSH 8.9")
             (Some "key authentication only")]).

(** The re-discovery of the test suite: port 22 again, no service name. *)
Definition ssh_again : DiscoverParams :=
  mkDiscoverParams "10.0.0.1" None None
    (Some [mkServiceData 22 tcp None (Some "OpenSSH 9.0") None]).

(** A first discovery that lists one port twice. *)
Definition twice_22 : DiscoverParams :=
  mkDiscoverParams "10.0.0.1" None None
    (Some [mkServiceData 22 tcp (Some "ssh") None None;
           mkServiceData 22 tcp (Some "ssh") None None]).

Definition long_target : string :=
  "aaaaaaaaaaaaaaaaaaaaaaaaaaaaaaaaaaaaaaa b".


(** * Further operations *)

(** ** tools/hosts.ts: updateHost *)

Inductive HostSection :=
  | enumeration
  | vulnerabilities
  | exploitation
  | post_exploitation
  | credentials
  | key_commands.

(** [host[section]] *)
Definition get_section (s : HostSection) (h : Host) : string :=
  match s with
  | enumeration => h_enumeration h
  | vulnerabilities => h_vulnerabilities h
  | exploitation => h_exploitation h
  | post_exploitation => h_post_exploitation h
  | credentials => h_credentials h
  | key_commands => h_key_commands h
  end.

(** [host[section] = v] *)
Definition set_section (s : HostSection) (v : string) (h : Host) : Host :=
  match s with
  | enumeration =>
      mkHost (h_ip h) (h_hostname h) (h_os h) (h_first_seen h) (h_updated_at h)
        (h_services h) v (h_vulnerabilities h) (h_exploitation h)
        (h_post_exploitation h) (h_credentials h) (h_key_commands h)
  | vulnerabilities =>
      mkHost (h_ip h) (h_hostname h) (h_os h) (h_first_seen h) (h_updated_at h)
        (h_services h) (h_enumeration h) v (h_exploitation h)
        (h_post_exploitation h) (h_credentials h) (h_key_commands h)
  | exploitation =>
      mkHost (h_ip h) (h_hostname h) (h_os h) (h_first_seen h) (h_updated_at h)
        (h_services h) (h_enumeration h) (h_vulnerabilities h) v
        (h_post_exploitation h) (h_credentials h) (h_key_commands h)
  | post_exploitation =>
      mkHost (h_ip h) (h_hostname h) (h_os h) (h_first_seen h) (h_updated_at h)
        (h_services h) (h_enumeration h) (h_vulnerabilities h) (h_exploitation h)
        v (h_credentials h) (h_key_commands h)
  | credentials =>
      mkHost (h_ip h) (h_hostname h) (h_os h) (h_first_seen h) (h_updated_at h)
        (h_services h) (h_enumeration h) (h_vulnerabilities h) (h_exploitation h)
        (h_post_exploitation h) v (h_key_commands h)
  | key_commands =>
      mkHost (h_ip h) (h_hostname h) (h_os h) (h_first_seen h) (h_updated_at h)
        (h_services h) (h_enumeration h) (h_vulnerabilities h) (h_exploitation h)
        (h_post_exploitation h) (h_credentials h) v
  end.

(** The two line feeds between a text and what is appended to it. *)
Definition blank_line : string := String "010" (String "010" EmptyString).

(** [current ? `${current}\n\n${content}` : content] *)
Definition append_text (current content : string) : string :=
  if Js.truthy current then current +:+ blank_line +:+ content else content.

Record UpdateHostParams := mkUpdateHostParams {
  uh_ip : string;
  uh_section : HostSection;
  uh_content : string
}.

Definition updateHost (params : UpdateHostParams) : M Host :=
  o ← loadActiveMetadata;
  meta ← deref o;
  match list_find (fun h => h_ip h = uh_ip params) (m_hosts meta) with
  | None => throw host_not_found
  | Some (i, host) =>
      let current := get_section (uh_section params) host in
      let host :=
        set_section (uh_section params) (append_text current (uh_content params)) host in
      ts ← now;
      let host := set_h_updated_at ts host in
      saveMetadataAndRender (set_hosts (<[i := host]> (m_hosts meta)) meta);;
      writeHostMd (m_id meta) host;;
      mret host
  end.

(** ** The id generators of credentials, TODOs and commands *)

(** [parseInt(id.replace(prefix, ""), 10)] *)
Definition id_number (prefix id : string) : option Z :=
  JsNum.parseInt (JsNum.remove_first prefix id).

(** The [for] loop over the ids of the existing entries. *)
Definition max_id_number (prefix : string) (ids : list string) : Z :=
  fold_left (fun max id => max_step max (id_number prefix id)) ids 0.

(** [`${prefix}${String(n).padStart(3, "0")}`] *)
Definition id_of (prefix : string) (n : Z) : string :=
  prefix +:+ JsNum.padStart 3 "0" (JsNum.to_string n).

Definition next_id (prefix : string) (ids : list string) : string :=
  id_of prefix (max_id_number prefix ids + 1).

(** tools/credentials.ts *)
Definition nextCredId (existing : list Credential) : string :=
  next_id "C-" (c_id <$> existing).

(** tools/tracking.ts *)
Definition nextTodoId (existing : list Todo) : string :=
  next_id "T-" (t_id <$> existing).

(** tools/commandLog.ts *)
Definition nextCmdId (existing : list CommandEntry) : string :=
  next_id "CMD-" (cmd_id <$> existing).

(** Assignments to the other collections of the record. *)
Definition set_credentials (l : list Credential) (m : EngagementMetadata) : EngagementMetadata :=
  mkMeta (m_id m) (m_target m) (m_scope m) (m_rules_of_engagement m) (m_status m)
    (m_created_at m) (m_updated_at m) (m_executive_summary m) (m_attack_path m)
    (m_findings m) (m_hosts m) l (m_dead_ends m) (m_todos m) (m_evidence_index m)
    (m_command_log m) (m_schema_version m).

Definition set_dead_ends (l : list DeadEnd) (m : EngagementMetadata) : EngagementMetadata :=
  mkMeta (m_id m) (m_target m) (m_scope m) (m_rules_of_engagement m) (m_status m)
    (m_created_at m) (m_updated_at m) (m_executive_summary m) (m_attack_path m)
    (m_findings m) (m_hosts m) (m_credentials m) l (m_todos m) (m_evidence_index m)
    (m_command_log m) (m_schema_version m).

Definition set_todos (l : list Todo) (m : EngagementMetadata) : EngagementMetadata :=
  mkMeta (m_id m) (m_target m) (m_scope m) (m_rules_of_engagement m) (m_status m)
    (m_created_at m) (m_updated_at m) (m_executive_summary m) (m_attack_path m)
    (m_findings m) (m_hosts m) (m_credentials m) (m_dead_ends m) l (m_evidence_index m)
    (m_command_log m) (m_schema_version m).

Definition set_attack_path (l : list AttackPathStep) (m : EngagementMetadata)
  : EngagementMetadata :=
  mkMeta (m_id m) (m_target m) (m_scope m) (m_rules_of_engagement m) (m_status m)
    (m_created_at m) (m_updated_at m) (m_executive_summary m) l
    (m_findings m) (m_hosts m) (m_credentials m) (m_dead_ends m) (m_todos m)
    (m_evidence_index m) (m_command_log m) (m_schema_version m).

Definition set_command_log (l : list CommandEntry) (m : EngagementMetadata)
  : EngagementMetadata :=
  mkMeta (m_id m) (m_target m) (m_scope m) (m_rules_of_engagement m) (m_status m)
    (m_created_at m) (m_updated_at m) (m_executive_summary m) (m_attack_path m)
    (m_findings m) (m_hosts m) (m_credentials m) (m_dead_ends m) (m_todos m)
    (m_evidence_index m) l (m_schema_version m).

(** ** tools/credentials.ts: addCredential *)

Record AddCredentialParams := mkAddCredentialParams {
  ac_source : string;
  ac_username : string;
  ac_password_or_hash : string;
  ac_cred_type : CredType;
  ac_access_level : option string;
  ac_verified : option bool
}.

Definition addCredential (params : AddCredentialParams) : M Credential :=
  o ← loadActiveMetadata;
  meta ← deref o;
  let id := nextCredId (m_credentials meta) in
  ts ← now;
  let cred :=
    mkCredential id (ac_source params) (ac_username params)
      (ac_password_or_hash params) (ac_cred_type params)
      (Js.opt_or (ac_access_level params) "")
      (default false (ac_verified params)) ts in
  saveMetadataAndRender (set_credentials (m_credentials meta ++ [cred]) meta);;
  mret cred.

(** ** tools/tracking.ts: logDeadEnd, addTodo, completeTodo *)

Record DeadEndParams := mkDeadEndParams {
  dep_technique : string;
  dep_target : string;
  dep_reason : string
}.

Definition logDeadEnd (params : DeadEndParams) : M DeadEnd :=
  o ← loadActiveMetadata;
  meta ← deref o;
  ts ← now;
  let entry :=
    mkDeadEnd ts (dep_technique params) (dep_target params) (dep_reason params) in
  saveMetadataAndRender (set_dead_ends (m_dead_ends meta ++ [entry]) meta);;
  mret entry.

Record AddTodoParams := mkAddTodoParams {
  at_description : string;
  at_priority : option Priority
}.

Definition addTodo (params : AddTodoParams) : M Todo :=
  o ← loadActiveMetadata;
  meta ← deref o;
  let id := nextTodoId (m_todos meta) in
  ts ← now;
  let todo :=
    mkTodo id (at_description params) (default prio_medium (at_priority params))
      pending ts None in
  saveMetadataAndRender (set_todos (m_todos meta ++ [todo]) meta);;
  mret todo.

(** The errors of the tracking tools: those of the calls above, and the one
    [completeTodo] throws itself. *)
Inductive TrackingError :=
  | core_error (e : ErrorCode)
  | todo_not_found.

(** [todo.status = "completed"; todo.completed_at = now()] *)
Definition complete (ts : string) (todo : Todo) : Todo :=
  mkTodo (t_id todo) (t_description todo) (t_priority todo) todo_completed
    (t_created_at todo) (Some ts).

Definition completeTodo (id : string) (w : World) : (TrackingError + Todo) * World :=
  match loadActiveMetadata w with
  | (Throw e, w) => (inl (core_error e), w)
  | (Ok None, w) => (inl (core_error type_error), w)
  | (Ok (Some meta), w) =>
      match list_find (fun t => t_id t = id) (m_todos meta) with
      | None => (inl todo_not_found, w)
      | Some (i, todo) =>
          match now w with
          | (Throw e, w) => (inl (core_error e), w)
          | (Ok ts, w) =>
              let todo := complete ts todo in
              match saveMetadataAndRender
                      (set_todos (<[i := todo]> (m_todos meta)) meta) w with
              | (Throw e, w) => (inl (core_error e), w)
              | (Ok _, w) => (inr todo, w)
              end
          end
      end
  end.

(** ** tools/narrative.ts *)

Definition updateAttackPath (description : string) : M AttackPathStep :=
  o ← loadActiveMetadata;
  meta ← deref o;
  let step := Z.of_nat (length (m_attack_path meta)) + 1 in
  ts ← now;
  let entry := mkAttackPathStep step description ts in
  saveMetadataAndRender (set_attack_path (m_attack_path meta ++ [entry]) meta);;
  mret entry.

Definition updateExecutiveSummary (summary : string) : M string :=
  o ← loadActiveMetadata;
  meta ← deref o;
  let meta := set_executive_summary summary meta in
  saveMetadataAndRender meta;;
  mret (m_executive_summary meta).

(** ** tools/commandLog.ts *)

(** [s.trimEnd()], on the white space of [JsNum.is_space]. *)
Fixpoint trim_end (s : string) : string :=
  match s with
  | EmptyString => EmptyString
  | String c r =>
      match trim_end r with
      | EmptyString => if JsNum.is_space c then EmptyString else String c EmptyString
      | r' => String c r'
      end
  end.

(** [s.trim()] *)
Definition trim (s : string) : string := trim_end (JsNum.skip_spaces s).

(** [s.split(/\s+/)[0]]: the text before the first white space. *)
Fixpoint before_space (s : string) : string :=
  match s with
  | EmptyString => EmptyString
  | String c r => if JsNum.is_space c then EmptyString else String c (before_space r)
  end.

(** [s.split("/").pop()]: the text after the last slash. *)
Fixpoint after_last_slash (s : string) : string :=
  match s with
  | EmptyString => EmptyString
  | String c r =>
      if Js.includes_char "/" r then after_last_slash r
      else if Ascii.eqb c "/" then r
      else s
  end.

Definition detectTool (command : string) : string :=
  let firstToken := before_space (trim command) in
  if negb (Js.truthy firstToken) then "unknown"
  else Js.or_else (after_last_slash firstToken) firstToken.

Record LogCommandParams := mkLogCommandParams {
  lc_command : string;
  lc_tool : option string;
  lc_target : option string;
  lc_started_at : option string;
  lc_finished_at : option string;
  lc_duration_seconds : option Q;
  lc_exit_code : option Z;
  lc_evidence_file : option string;
  lc_parsed : option bool;
  lc_source : option Source
}.

(** [s || now()]: the clock is read only when [s] is missing or empty. *)
Definition or_now (o : option string) : M string :=
  if supplied o then mret (Js.opt_or o "") else now.

Definition logCommand (params : LogCommandParams) : M CommandEntry :=
  o ← loadActiveMetadata;
  meta ← deref o;
  let id := nextCmdId (m_command_log meta) in
  let tool :=
    if supplied (lc_tool params) then Js.opt_or (lc_tool params) ""
    else detectTool (lc_command params) in
  started ← or_now (lc_started_at params);
  finished ← or_now (lc_finished_at params);
  let entry :=
    mkCommandEntry id (lc_command params) tool (Js.opt_or (lc_target params) "")
      started finished (lc_duration_seconds params) (lc_exit_code params)
      (or_null (lc_evidence_file params)) (default false (lc_parsed params))
      (default src_mcp (lc_source params)) in
  saveMetadataAndRender (set_command_log (m_command_log meta ++ [entry]) meta);;
  mret entry.

(** ** tools/engagement.ts: listEngagements, engagementStatus *)

(** [index.map((e) => ({ ...e, is_current: e.id === currentId }))] *)
Definition listEngagements : M (list (IndexEntry * bool)) :=
  index ← getIndex;
  currentId ← getActiveEngagementId;
  mret ((fun e => (e, bool_decide (Some (ie_id e) = currentId))) <$> index).

#[global] Instance Severity_eq_dec : EqDecision Severity.
Proof. solve_decision. Defined.

(** [obj[severity] = (obj[severity] || 0) + 1] on an object whose keys keep
    the order in which they were first set. *)
Definition bump (sev : Severity) (obj : list (Severity * nat)) : list (Severity * nat) :=
  match list_find (fun kv => fst kv = sev) obj with
  | Some (i, (_, n)) => <[i := (sev, S n)]> obj
  | None => obj ++ [(sev, 1%nat)]
  end.

(** [arr.slice(-n)] *)
Definition slice_last {A : Type} (n : nat) (l : list A) : list A :=
  drop (length l - n) l.

Record StatusSummary := mkStatusSummary {
  ss_id : string;
  ss_target : string;
  ss_status : EngagementStatus;
  ss_findings_by_severity : list (Severity * nat);
  ss_host_count : nat;
  ss_credential_count : nat;
  ss_evidence_count : nat;
  ss_command_count : nat;
  ss_open_todos : nat;
  ss_recent_attack_path : list (Z * string)
}.

Definition engagementStatus : M StatusSummary :=
  id ← requireActiveEngagement;
  o ← readMetadata id;
  meta ← deref o;
  let findingsBySeverity :=
    fold_left (fun obj f => bump (f_severity f) obj) (m_findings meta) [] in
  mret (mkStatusSummary (m_id meta) (m_target meta) (m_status meta)
          findingsBySeverity
          (length (m_hosts meta)) (length (m_credentials meta))
          (length (m_evidence_index meta)) (length (m_command_log meta))
          (length (filter (fun t => t_status t = pending) (m_todos meta)))
          ((fun s => (ap_step s, ap_description s)) <$> slice_last 5 (m_attack_path meta))).

(** ** tools/ingest.ts, parsers/index.ts *)





















(** ** Vocabulary of the further properties *)

(** The calls that change the record of the active engagement and return
    through [saveMetadataAndRender]. *)
Inductive Call :=
  | call_discover_host (params : DiscoverParams)
  | call_update_host (params : UpdateHostParams)
  | call_add_finding (params : AddFindingParams)
  | call_update_finding (params : UpdateFindingParams)
  | call_add_credential (params : AddCredentialParams)
  | call_save_evidence (params : SaveEvidenceParams)
  | call_log_dead_end (params : DeadEndParams)
  | call_add_todo (params : AddTodoParams)
  | call_attack_path (description : string)
  | call_executive_summary (summary : string)
  | call_log_command (params : LogCommandParams).

Definition run_call (c : Call) : M unit :=
  match c with
  | call_discover_host p => discoverHost p;; mret tt
  | call_update_host p => updateHost p;; mret tt
  | call_add_finding p => addFinding p;; mret tt
  | call_update_finding p => updateFinding p;; mret tt
  | call_add_credential p => addCredential p;; mret tt
  | call_save_evidence p => saveEvidence p;; mret tt
  | call_log_dead_end p => logDeadEnd p;; mret tt
  | call_add_todo p => addTodo p;; mret tt
  | call_attack_path d => updateAttackPath d;; mret tt
  | call_executive_summary s => updateExecutiveSummary s;; mret tt
  | call_log_command p => logCommand p;; mret tt
  end.

(** The world after a series of calls; a call that throws hands the next
    one the world it left. *)
Fixpoint run_calls (calls : list Call) (w : World) : World :=
  match calls with
  | [] => w
  | c :: rest => run_calls rest (snd (run_call c w))
  end.

(** What is fixed when an engagement is created. *)
Definition same_engagement (a b : EngagementMetadata) : Prop :=
  m_id a = m_id b /\
  m_target a = m_target b /\
  m_scope a = m_scope b /\
  m_rules_of_engagement a = m_rules_of_engagement b /\
  m_status a = m_status b /\
  m_created_at a = m_created_at b /\
  m_schema_version a = m_schema_version b.

(** The value of a key of the object [bump] builds. *)
Definition count_of (sev : Severity) (obj : list (Severity * nat)) : option nat :=
  snd <$> (snd <$> list_find (fun kv => fst kv = sev) obj).

(** The entries of a list that are pending. *)
Definition pending_todos (l : list Todo) : nat :=
  length (filter (fun t => t_status t = pending) l).

(** The world after a host has been discovered in the example engagement. *)
Definition one_host_world : World := snd (discoverHost ssh_first created_world).

(** The world after a TODO has been added to the example engagement. *)
Definition one_todo_world : World :=
  snd (addTodo (mkAddTodoParams "check port 443" None) created_world).



(** Whatever a user can ask for in a session. *)
Inductive SessionOp :=
  | op_create_engagement (params : CreateParams)
  | op_resume_engagement (id : string)
  | op_close_engagement (params : CloseParams)
  | op_complete_todo (id : string)
  | op_tool_call (c : Call).

(** The data directory an operation leaves, whether it returned or threw. *)
Definition run_session_op (op : SessionOp) (w : World) : World :=
  match op with
  | op_create_engagement params => snd (createEngagement params w)
  | op_resume_engagement id => snd (resumeEngagement id w)
  | op_close_engagement params => snd (closeEngagement params w)
  | op_complete_todo id => snd (completeTodo id w)
  | op_tool_call c => snd (run_call c w)
  end.

Fixpoint run_session (ops : list SessionOp) (w : World) : World :=
  match ops with
  | [] => w
  | op :: rest => run_session rest (run_session_op op w)
  end.

(** The index and the records agree: the ids of the index are distinct,
    every record is stored under its own id and has its projection in the
    index, and every entry of the index has a record. *)
Definition consistent (w : World) : Prop :=
  let index := default [] (index_json w) in
  NoDup (ie_id <$> index) /\
  (forall id meta, metadata_json w !! id = Some meta ->
                   m_id meta = id /\ buildIndexEntry meta ∈ index) /\
  (forall e, e ∈ index -> is_Some (metadata_json w !! ie_id e)).

(** What a record keeps for good. *)
Definition same_origin (a b : EngagementMetadata) : Prop :=
  m_id a = m_id b /\
  m_target a = m_target b /\
  m_scope a = m_scope b /\
  m_rules_of_engagement a = m_rules_of_engagement b /\
  m_created_at a = m_created_at b.

(** Every record of [w] is still there in [w'], and no entry of the index
    has gone or moved. *)
Definition nothing_lost (w w' : World) : Prop :=
  (forall id meta, metadata_json w !! id = Some meta ->
                   exists meta', metadata_json w' !! id = Some meta' /\
                                 same_origin meta meta') /\
  (ie_id <$> default [] (index_json w))
    `prefix_of` (ie_id <$> default [] (index_json w')).

(** [y] is an entry for the port and protocol of [x], and has a value for
    every field [x] has one for. *)
Definition never_blanked (x y : Service) : Prop :=
  same_endpoint y x /\
  (Js.truthy (svc_service x) = true -> Js.truthy (svc_service y) = true) /\
  (Js.truthy (svc_version x) = true -> Js.truthy (svc_version y) = true) /\
  (Js.truthy (svc_notes x) = true -> Js.truthy (svc_notes y) = true).




(** ** Tactics for the monad *)

Ltac unfold_m :=
  unfold deref in *;
  unfold mbind, M_bind, mret, M_ret, throw, gets, modify in *.

Ltac run_m_in H :=
  cbv [saveMetadataAndRender now writeMetadata updateIndexEntry writeFindingsMd
       writeHostMd getIndex writeIndex setActiveEngagement clearActiveEngagement
       setState getState getActiveEngagementId readMetadata writeEvidence
       evidence_exists makeEmptyMetadata
       mbind M_bind mret M_ret throw gets modify deref] in H.

(** Runs the storage steps of a call on a symbolic world. *)
Ltac run_m :=
  cbv [saveMetadataAndRender now writeMetadata updateIndexEntry writeFindingsMd
       writeHostMd getIndex writeIndex setActiveEngagement clearActiveEngagement
       setState getState getActiveEngagementId readMetadata writeEvidence
       evidence_exists makeEmptyMetadata
       mbind M_bind mret M_ret throw gets modify deref].

(** Reads the world a call returned in [H] and closes a goal about its
    record and index with the lemma [intro]. *)
Ltac committed H intro :=
  run_m_in H; injection H as <-;
  eapply intro; [cbn; apply lookup_insert_eq|reflexivity|reflexivity].

(** * Properties *)

(** ** The monad and the storage primitives *)

Lemma requireActiveEngagement_same w r w' :
  requireActiveEngagement w = (r, w') -> w' = w.
Proof.
  unfold requireActiveEngagement, getActiveEngagementId, getState. unfold_m.
  destruct (current_engagement_id _) as [s|]; [destruct (Js.truthy s)|];
    intros [= _ <-]; reflexivity.
Qed.

Lemma loadActiveMetadata_same w r w' :
  loadActiveMetadata w = (r, w') -> w' = w.
Proof.
  unfold loadActiveMetadata, readMetadata. unfold_m.
  destruct (requireActiveEngagement w) as [[id|e] w1] eqn:E;
    apply requireActiveEngagement_same in E; subst w1;
    intros [= _ <-]; reflexivity.
Qed.

Lemma loadActiveMetadata_active w id meta :
  active_record w id meta -> loadActiveMetadata w = (Ok (Some meta), w).
Proof.
  intros (Hs & Ht & Hm & _).
  unfold loadActiveMetadata, requireActiveEngagement, getActiveEngagementId,
    getState, readMetadata. unfold_m.
  rewrite Hs. simpl. rewrite Ht, Hm. reflexivity.
Qed.

(** What the universal save path writes. *)
Lemma saveMetadataAndRender_spec meta w :
  exists w',
    saveMetadataAndRender meta w = (Ok tt, w') /\
    let meta' := set_updated_at (clock w (tick w)) meta in
    metadata_json w' = <[m_id meta := meta']> (metadata_json w) /\
    index_json w' = Some (upsert_entry (buildIndexEntry meta') (default [] (index_json w))) /\
    findings_md w' = <[m_id meta := meta']> (findings_md w) /\
    state_json w' = state_json w /\
    evidence_files w' = evidence_files w /\
    host_md w' = host_md w /\
    clock w' = clock w /\
    tick w' = S (tick w).
Proof. eexists. split; [run_m; reflexivity|]. repeat split. Qed.

Lemma saveMetadataAndRender_ok meta w : fst (saveMetadataAndRender meta w) = Ok tt.
Proof. reflexivity. Qed.

Lemma Qltb_lt a b : Qltb a b = true <-> (a < b)%Q.
Proof.
  unfold Qltb. rewrite negb_true_iff.
  destruct (Qle_bool b a) eqn:E.
  - apply Qle_bool_iff in E. split; [discriminate|].
    intros H. exfalso. exact (Qlt_not_le _ _ H E).
  - split; [intros _|reflexivity].
    apply Qnot_le_lt. intros H. apply Qle_bool_iff in H. congruence.
Qed.

Lemma cvss_out_of_range_iff c :
  cvss_out_of_range c = true <-> (c < 0 \/ 10 < c)%Q.
Proof.
  unfold cvss_out_of_range. rewrite orb_true_iff, !Qltb_lt. reflexivity.
Qed.

Lemma cvss_accepted_iff c : cvss_accepted c = false <-> outside_0_10 c.
Proof.
  unfold cvss_accepted, outside_0_10. destruct c as [q|].
  - rewrite negb_false_iff, cvss_out_of_range_iff. split.
    + intros H. exists q. split; [reflexivity|exact H].
    + intros (q' & [= <-] & H). exact H.
  - split; [discriminate|]. intros (q & [=] & _).
Qed.

(** ** CVSS validation *)

Lemma addFinding_outcome w meta params :
  loadActiveMetadata w = (Ok (Some meta), w) ->
  (cvss_accepted (af_cvss params) = false /\
   addFinding params w = (Throw invalid_cvss, w)) \/
  (cvss_accepted (af_cvss params) = true /\
   exists finding w',
     addFinding params w = (Ok finding, w') /\
     f_id finding = nextFindingId (m_findings meta) /\
     state_json w' = state_json w /\
     metadata_json w' =
       <[m_id meta := set_updated_at (clock w (S (S (tick w))))
                        (set_findings (m_findings meta ++ [finding]) meta)]>
         (metadata_json w)).
Proof.
  intros Hload. unfold addFinding. unfold_m. rewrite Hload. cbn beta iota.
  unfold cvss_accepted.
  destruct (af_cvss params) as [c|]; [destruct (cvss_out_of_range c)|].
  - left. split; reflexivity.
  - right. split; [reflexivity|]. eexists _, _. split; [run_m; reflexivity|].
    repeat split.
  - right. split; [reflexivity|]. eexists _, _. split; [run_m; reflexivity|].
    repeat split.
Qed.

Lemma update_tail_id params finding : f_id (update_tail params finding) = f_id finding.
Proof.
  unfold update_tail.
  destruct (uf_status params), (supplied (uf_evidence_file params)),
    (uf_notes params) as [n|]; try destruct (Js.truthy n); reflexivity.
Qed.

Lemma updateFinding_outcome w meta params :
  loadActiveMetadata w = (Ok (Some meta), w) ->
  match list_find (fun f => f_id f = uf_id params) (m_findings meta) with
  | None => updateFinding params w = (Throw finding_not_found, w)
  | Some (i, old) =>
      (cvss_accepted (uf_cvss params) = false /\
       updateFinding params w = (Throw invalid_cvss, w)) \/
      (cvss_accepted (uf_cvss params) = true /\
       exists finding w',
         updateFinding params w = (Ok finding, w') /\
         f_id finding = f_id old /\
         state_json w' = state_json w /\
         metadata_json w' =
           <[m_id meta := set_updated_at (clock w (S (tick w)))
                            (set_findings (<[i := finding]> (m_findings meta)) meta)]>
             (metadata_json w))
  end.
Proof.
  intros Hload. unfold updateFinding. unfold_m. rewrite Hload. cbn beta iota.
  destruct (list_find _ (m_findings meta)) as [[i old]|]; [|reflexivity].
  unfold cvss_accepted.
  destruct (uf_cvss params) as [c|]; [destruct (cvss_out_of_range c)|].
  - left. split; reflexivity.
  - right. split; [reflexivity|]. eexists _, _. split; [run_m; reflexivity|].
    split; [|split; reflexivity].
    cbn. rewrite update_tail_id. destruct (uf_severity params); reflexivity.
  - right. split; [reflexivity|]. eexists _, _. split; [run_m; reflexivity|].
    split; [|split; reflexivity].
    cbn. rewrite update_tail_id. destruct (uf_severity params); reflexivity.
Qed.

Lemma loadActiveMetadata_cases w :
  loadActiveMetadata w = (Throw no_active_engagement, w) \/
  exists o, loadActiveMetadata w = (Ok o, w).
Proof.
  unfold loadActiveMetadata, requireActiveEngagement, getActiveEngagementId,
    getState, readMetadata. unfold_m.
  destruct (current_engagement_id _) as [s|]; [destruct (Js.truthy s)|];
    eauto.
Qed.

(** The ways [addFinding] can end. *)
Lemma addFinding_cases w params :
  (exists e, addFinding params w = (Throw e, w) /\
             (e = invalid_cvss -> cvss_accepted (af_cvss params) = false)) \/
  (exists finding w', addFinding params w = (Ok finding, w')).
Proof.
  destruct (loadActiveMetadata_cases w) as [E|[[meta|] E]].
  - left. exists no_active_engagement. split; [|discriminate].
    unfold addFinding. unfold_m. rewrite E. reflexivity.
  - destruct (addFinding_outcome w meta params E) as [[Hc H]|[_ (f & w' & H & _)]].
    + left. exists invalid_cvss. split; [exact H|intros _; exact Hc].
    + right. eauto.
  - left. exists type_error. split; [|discriminate].
    unfold addFinding. unfold_m. rewrite E. reflexivity.
Qed.

Lemma updateFinding_cases w params :
  (exists e, updateFinding params w = (Throw e, w) /\
             (e = invalid_cvss -> cvss_accepted (uf_cvss params) = false)) \/
  (exists finding w', updateFinding params w = (Ok finding, w')).
Proof.
  destruct (loadActiveMetadata_cases w) as [E|[[meta|] E]].
  - left. exists no_active_engagement. split; [|discriminate].
    unfold updateFinding. unfold_m. rewrite E. reflexivity.
  - pose proof (updateFinding_outcome w meta params E) as H.
    destruct (list_find _ (m_findings meta)) as [[i old]|].
    + destruct H as [[Hc H]|[_ (f & w' & H & _)]].
      * left. exists invalid_cvss. split; [exact H|intros _; exact Hc].
      * right. eauto.
    + left. exists finding_not_found. split; [exact H|discriminate].
  - left. exists type_error. split; [|discriminate].
    unfold updateFinding. unfold_m. rewrite E. reflexivity.
Qed.

(** C7.  [addFinding] and [updateFinding] throw [invalid_cvss] only when a
    CVSS value is supplied and lies outside [0, 10]; and when the call gets as
    far as the check (an active engagement whose record loads and, for an
    update, a finding of that id), exactly then: it succeeds otherwise.  In
    particular -0.1 and 10.1 are rejected, 0 and 10 are accepted, and an
    omitted CVSS is never rejected. *)
Theorem cvss_validation (w : World) :
  (forall p, rejects_cvss (addFinding p) w -> outside_0_10 (af_cvss p)) /\
  (forall p, rejects_cvss (updateFinding p) w -> outside_0_10 (uf_cvss p)) /\
  (forall meta, loadActiveMetadata w = (Ok (Some meta), w) ->
     (forall p, rejects_cvss (addFinding p) w <-> outside_0_10 (af_cvss p)) /\
     (forall p, ~ outside_0_10 (af_cvss p) -> succeeds (addFinding p) w) /\
     (forall p, is_Some (list_find (fun f => f_id f = uf_id p) (m_findings meta)) ->
        (rejects_cvss (updateFinding p) w <-> outside_0_10 (uf_cvss p)) /\
        (~ outside_0_10 (uf_cvss p) -> succeeds (updateFinding p) w))) /\
  outside_0_10 (Some (-1 # 10)) /\
  outside_0_10 (Some (101 # 10)) /\
  ~ outside_0_10 (Some 0%Q) /\
  ~ outside_0_10 (Some 10%Q) /\
  ~ outside_0_10 None.
Proof.
  split; [|split; [|split]].
  - intros p H. unfold rejects_cvss in H. apply cvss_accepted_iff.
    destruct (addFinding_cases w p) as [(e & E & He)|(f & w' & E)];
      rewrite E in H; simpl in H; [|discriminate].
    apply He. congruence.
  - intros p H. unfold rejects_cvss in H. apply cvss_accepted_iff.
    destruct (updateFinding_cases w p) as [(e & E & He)|(f & w' & E)];
      rewrite E in H; simpl in H; [|discriminate].
    apply He. congruence.
  - intros meta Hload. split; [|split].
    + intros p. rewrite <- cvss_accepted_iff. unfold rejects_cvss.
      destruct (addFinding_outcome w meta p Hload) as [[Hc H]|[Hc (f & w' & H & _)]];
        rewrite H, Hc; simpl; split; congruence.
    + intros p Hn. rewrite <- cvss_accepted_iff in Hn. unfold succeeds.
      destruct (addFinding_outcome w meta p Hload) as [[Hc H]|[Hc (f & w' & H & _)]].
      * contradiction.
      * rewrite H. eauto.
    + intros p [[i old] Hfind].
      pose proof (updateFinding_outcome w meta p Hload) as H. rewrite Hfind in H.
      rewrite <- cvss_accepted_iff. unfold rejects_cvss, succeeds.
      destruct H as [[Hc H]|[Hc (f & w' & H & _)]]; rewrite H, Hc; simpl.
      * split; [split; congruence|]. intros Hn. contradiction.
      * split; [split; congruence|]. eauto.
  - repeat split.
    + exists (-1 # 10)%Q. split; [reflexivity|]. left. reflexivity.
    + exists (101 # 10)%Q. split; [reflexivity|]. right. reflexivity.
    + intros (q & [= <-] & [H|H]); discriminate H.
    + intros (q & [= <-] & [H|H]); discriminate H.
    + intros (q & [=] & _).
Qed.

(** The checks of C7 at the record of a freshly created engagement. *)
Lemma cvss_validation_witness :
  rejects_cvss (addFinding (finding_with (Some (101 # 10)))) created_world /\
  succeeds (addFinding (finding_with (Some 10%Q))) created_world.
Proof.
  pose proof (cvss_validation created_world) as (_ & _ & H & _ & Hhi & _ & H10 & _).
  edestruct H as (Hadd & Hok & _); [vm_compute; reflexivity|].
  split; [apply Hadd; exact Hhi|apply Hok; exact H10].
Defined.

(** C10.  When [addFinding] or [updateFinding] throws [invalid_cvss], the
    data directory is what it was before the call: the record, its findings,
    the index and the reports are untouched, because the error is thrown
    before the save path runs. *)
Theorem invalid_cvss_changes_nothing (w w' : World) :
  (forall p, addFinding p w = (Throw invalid_cvss, w') ->
     w' = w /\ metadata_json w' = metadata_json w /\ index_json w' = index_json w) /\
  (forall p, updateFinding p w = (Throw invalid_cvss, w') ->
     w' = w /\ metadata_json w' = metadata_json w /\ index_json w' = index_json w).
Proof.
  split; intros p H.
  - destruct (addFinding_cases w p) as [(e & E & _)|(f & w1 & E)];
      rewrite E in H; [|discriminate].
    injection H as _ <-. repeat split.
  - destruct (updateFinding_cases w p) as [(e & E & _)|(f & w1 & E)];
      rewrite E in H; [|discriminate].
    injection H as _ <-. repeat split.
Qed.

(** C10 on a rejected add to a fresh record and a rejected update of F-001. *)
Lemma invalid_cvss_changes_nothing_witness :
  snd (addFinding (finding_with (Some 15%Q)) one_finding_world) = one_finding_world /\
  snd (updateFinding (update_with "F-001" (Some (-1 # 10)) (Some "x")) one_finding_world)
    = one_finding_world.
Proof.
  split.
  - apply (proj1 (invalid_cvss_changes_nothing one_finding_world _)
             (finding_with (Some 15%Q))).
    vm_compute. reflexivity.
  - apply (proj2 (invalid_cvss_changes_nothing one_finding_world _)
             (update_with "F-001" (Some (-1 # 10)) (Some "x"))).
    vm_compute. reflexivity.
Defined.

(** ** The index follows the record *)

Section Upsert.
Context {A : Type} (P : A -> Prop) `{!forall x, Decision (P x)}.

Lemma list_find_insert_same (l : list A) i x y :
  list_find P l = Some (i, x) -> P y ->
  list_find P (<[i := y]> l) = Some (i, y).
Proof.
  intros Hf Hy. apply list_find_Some in Hf as (Hi & Hx & Hmin).
  apply list_find_Some. split; [|split].
  - apply list_lookup_insert_eq. eapply lookup_lt_Some, Hi.
  - exact Hy.
  - intros j z Hj Hlt. rewrite list_lookup_insert_ne in Hj by lia.
    eapply Hmin; eassumption.
Qed.

Lemma list_find_snoc_None (l : list A) y :
  list_find P l = None -> P y ->
  list_find P (l ++ [y]) = Some (length l, y).
Proof.
  intros Hf Hy. apply list_find_None in Hf.
  apply list_find_Some. split; [|split].
  - rewrite lookup_app_r by lia. rewrite Nat.sub_diag. reflexivity.
  - exact Hy.
  - intros j z Hj Hlt. rewrite lookup_app_l in Hj by lia.
    eapply Forall_lookup_1 in Hf; eauto.
Qed.
End Upsert.

Lemma upsert_entry_find entry index :
  exists i, list_find (fun e => ie_id e = ie_id entry) (upsert_entry entry index)
            = Some (i, entry).
Proof.
  unfold upsert_entry.
  destruct (list_find _ index) as [[i e]|] eqn:E.
  - exists i. eapply list_find_insert_same; [exact E|reflexivity].
  - exists (length index). apply list_find_snoc_None; [exact E|reflexivity].
Qed.

Lemma index_entry_matches_saved meta w w1 w' r :
  saveMetadataAndRender meta w = (r, w1) ->
  metadata_json w' = metadata_json w1 ->
  index_json w' = index_json w1 ->
  index_entry_matches w' (m_id meta).
Proof.
  intros Hsave Hm Hi.
  destruct (saveMetadataAndRender_spec meta w) as (w2 & E & Hmeta & Hidx & _).
  rewrite E in Hsave. injection Hsave as _ <-.
  destruct (upsert_entry_find
              (buildIndexEntry (set_updated_at (clock w (tick w)) meta))
              (default [] (index_json w))) as [i Hfind].
  exists (set_updated_at (clock w (tick w)) meta), i,
    (buildIndexEntry (set_updated_at (clock w (tick w)) meta)).
  split; [|split; [|repeat split]].
  - rewrite Hm, Hmeta. apply lookup_insert_eq.
  - rewrite Hi, Hidx. exact Hfind.
Qed.

Lemma index_entry_matches_intro w' id meta' index :
  metadata_json w' !! id = Some meta' ->
  m_id meta' = id ->
  index_json w' = Some (upsert_entry (buildIndexEntry meta') index) ->
  index_entry_matches w' id.
Proof.
  intros Hm Hid Hi.
  destruct (upsert_entry_find (buildIndexEntry meta') index) as [i Hfind].
  exists meta', i, (buildIndexEntry meta').
  split; [exact Hm|]. split; [|repeat split].
  rewrite Hi. simpl in *. rewrite <- Hid. exact Hfind.
Qed.

Lemma run_mutation_matches mu w w' :
  run_mutation mu w = (Ok tt, w') ->
  exists meta,
    loadActiveMetadata w = (Ok (Some meta), w) /\
    index_entry_matches w' (m_id meta).
Proof.
  intros Hrun.
  destruct (loadActiveMetadata_cases w) as [E|[[meta|] E]].
  - exfalso. destruct mu as [p|p|p|p]; simpl in Hrun;
      unfold discoverHost, addFinding, updateFinding, saveEvidence in Hrun;
      unfold_m; rewrite ?E in Hrun;
      try destruct (has_path_separator _); try rewrite E in Hrun; discriminate.
  - exists meta. split; [exact E|].
    destruct mu as [p|p|p|p]; simpl in Hrun.
    + unfold discoverHost in Hrun. unfold_m. rewrite E in Hrun. cbn beta iota in Hrun.
      destruct (list_find _ (m_hosts meta)) as [[i host]|];
        committed Hrun index_entry_matches_intro.
    + unfold addFinding in Hrun. unfold_m. rewrite E in Hrun. cbn beta iota in Hrun.
      destruct (match af_cvss p with Some c => cvss_out_of_range c | None => false end);
        [discriminate|].
      committed Hrun index_entry_matches_intro.
    + unfold updateFinding in Hrun. unfold_m. rewrite E in Hrun. cbn beta iota in Hrun.
      destruct (list_find _ (m_findings meta)) as [[i old]|]; [|discriminate].
      destruct (uf_cvss p) as [c|]; [destruct (cvss_out_of_range c); [discriminate|]|];
        committed Hrun index_entry_matches_intro.
    + unfold saveEvidence in Hrun. unfold_m.
      destruct (has_path_separator _); [discriminate|].
      rewrite E in Hrun. committed Hrun index_entry_matches_intro.
  - exfalso. destruct mu as [p|p|p|p]; simpl in Hrun;
      unfold discoverHost, addFinding, updateFinding, saveEvidence in Hrun;
      unfold_m; rewrite ?E in Hrun;
      try destruct (has_path_separator _); try rewrite E in Hrun; discriminate.
Qed.

(** C4.  The universal save path always commits, and after it the index
    entry of the engagement is the projection of the record it stored: the
    same id, target, status and timestamps, and the four counts are the
    lengths of the record's findings, hosts, credentials and command log.
    So it is after every mutation that returns: host discovery, finding add
    and update, evidence save. *)
Theorem index_entry_is_projection :
  (forall meta w, exists w',
      saveMetadataAndRender meta w = (Ok tt, w') /\
      index_entry_matches w' (m_id meta)) /\
  (forall mu w w',
      run_mutation mu w = (Ok tt, w') ->
      exists meta,
        loadActiveMetadata w = (Ok (Some meta), w) /\
        index_entry_matches w' (m_id meta)).
Proof.
  split.
  - intros meta w.
    destruct (saveMetadataAndRender_spec meta w) as (w' & E & _).
    exists w'. split; [exact E|].
    eapply index_entry_matches_saved; [exact E|reflexivity|reflexivity].
  - exact run_mutation_matches.
Qed.

(** C4 after the first finding of the example engagement. *)
Lemma index_entry_is_projection_witness :
  exists meta,
    loadActiveMetadata created_world = (Ok (Some meta), created_world) /\
    index_entry_matches one_finding_world (m_id meta).
Proof.
  apply (proj2 index_entry_is_projection
           (mut_add_finding (finding_with (Some (98 # 10)))) created_world).
  vm_compute. reflexivity.
Defined.

(** ** Decimal text of numbers *)

Lemma to_string_nonneg z :
  0 <= z -> JsNum.to_string z = NilEmpty.string_of_uint (N.to_uint (Z.to_N z)).
Proof. destruct z; [reflexivity|reflexivity|lia]. Qed.

Lemma to_string_inj a b :
  0 <= a -> 0 <= b -> JsNum.to_string a = JsNum.to_string b -> a = b.
Proof.
  intros Ha Hb H. rewrite !to_string_nonneg in H by assumption.
  apply (f_equal NilEmpty.uint_of_string) in H.
  rewrite !NilEmpty.usu in H. injection H as H.
  apply DecimalN.Unsigned.to_uint_inj in H.
  apply Z2N.inj in H; assumption.
Qed.

Lemma with_suffix_inj id a b :
  0 <= a -> 0 <= b -> with_suffix id a = with_suffix id b -> a = b.
Proof.
  unfold with_suffix. intros Ha Hb H.
  apply String.app_inj in H. apply (String.app_inj "-") in H.
  apply to_string_inj; assumption.
Qed.

Lemma append_cons c a b : String c a +:+ b = String c (a +:+ b).
Proof. reflexivity. Qed.

Lemma append_nil b : EmptyString +:+ b = b.
Proof. reflexivity. Qed.

Lemma length_append a b :
  String.length (a +:+ b) = (String.length a + String.length b)%nat.
Proof.
  induction a as [|c a IH]; [reflexivity|].
  rewrite append_cons. simpl. rewrite IH. reflexivity.
Qed.

Lemma with_suffix_longer id k : with_suffix id k <> id.
Proof.
  unfold with_suffix. intros H. apply (f_equal String.length) in H.
  rewrite !length_append in H. simpl in H. lia.
Qed.

Lemma endsWith_append a t : Js.endsWith (a +:+ t) t = true.
Proof.
  unfold Js.endsWith. rewrite length_append.
  apply andb_true_intro. split; [apply Nat.leb_le; lia|].
  replace (String.length a + String.length t - String.length t)%nat
    with (String.length a) by lia.
  apply String.eqb_eq.
  induction a as [|c a IH]; [rewrite append_nil|rewrite append_cons]; simpl.
  - induction t as [|c t IH]; simpl; [reflexivity|]. rewrite IH. reflexivity.
  - exact IH.
Qed.

(** ** Collision handling of createEngagement *)

Lemma index_has_true index id :
  index_has index id = true <-> id ∈ ie_id <$> index.
Proof.
  unfold index_has. rewrite existsb_exists, list_elem_of_fmap. split.
  - intros (e & Hin & He). apply String.eqb_eq in He.
    exists e. split; [congruence|]. apply list_elem_of_In. exact Hin.
  - intros (e & -> & Hin). exists e. split; [apply list_elem_of_In; exact Hin|].
    apply String.eqb_refl.
Qed.

Lemma index_has_snoc index e id :
  index_has (index ++ [e]) id = (index_has index id || String.eqb (ie_id e) id)%bool.
Proof. unfold index_has. rewrite existsb_app. simpl. rewrite orb_false_r. reflexivity. Qed.

Lemma index_has_false_find index id :
  index_has index id = false ->
  list_find (fun e => ie_id e = id) index = None.
Proof.
  intros H. apply list_find_None. apply Forall_forall. intros e He Heq.
  assert (index_has index id = true) as Ht; [|congruence].
  apply index_has_true. apply list_elem_of_fmap. exists e. split; [congruence|exact He].
Qed.

Lemma free_suffix_Some fuel index id s k :
  free_suffix fuel index id s = Some k ->
  s <= k /\ index_has index (with_suffix id k) = false /\
  forall j, s <= j < k -> index_has index (with_suffix id j) = true.
Proof.
  revert s. induction fuel as [|fuel IH]; intros s; simpl; [discriminate|].
  destruct (index_has index (with_suffix id s)) eqn:E.
  - intros H. apply IH in H as (Hle & Hk & Hall).
    split; [lia|]. split; [exact Hk|].
    intros j Hj. destruct (decide (j = s)) as [->|Hne]; [exact E|].
    apply Hall. lia.
  - intros [= <-]. split; [lia|]. split; [exact E|]. intros j Hj. lia.
Qed.

Lemma free_suffix_None fuel index id s :
  free_suffix fuel index id s = None ->
  forall i : nat, (i < fuel)%nat -> index_has index (with_suffix id (s + Z.of_nat i)) = true.
Proof.
  revert s. induction fuel as [|fuel IH]; intros s; simpl; [intros _ i Hi; lia|].
  destruct (index_has index (with_suffix id s)) eqn:E; [|discriminate].
  intros H [|i] Hi.
  - rewrite Z.add_0_r. exact E.
  - replace (s + Z.of_nat (S i)) with (s + 1 + Z.of_nat i) by lia.
    apply IH; [exact H|lia].
Qed.

(** The loop ends before it has tried one suffix more than the index has
    entries: the candidates are pairwise different. *)
Lemma free_suffix_total index id :
  is_Some (free_suffix (S (length index)) index id 2).
Proof.
  destruct (free_suffix (S (length index)) index id 2) as [k|] eqn:E; [eauto|].
  exfalso.
  pose proof (free_suffix_None _ _ _ _ E) as Hall.
  set (f := fun i : nat => with_suffix id (2 + Z.of_nat i)).
  assert (NoDup (f <$> seq 0 (S (length index)))) as Hnd.
  { apply NoDup_fmap_2; [|apply NoDup_seq].
    intros i j Hij. unfold f in Hij. apply with_suffix_inj in Hij; lia. }
  assert (f <$> seq 0 (S (length index)) ⊆+ ie_id <$> index) as Hsub.
  { apply NoDup_submseteq; [exact Hnd|].
    intros x Hx. apply list_elem_of_fmap in Hx as (i & -> & Hi).
    apply elem_of_seq in Hi. apply index_has_true. apply Hall. lia. }
  apply submseteq_length in Hsub.
  rewrite !length_fmap, length_seq in Hsub. lia.
Qed.

Lemma resolve_id_spec index id0 :
  exists id,
    resolve_id index id0 = Some id /\
    index_has index id = false /\
    (index_has index id0 = false -> id = id0) /\
    (index_has index id0 = true ->
     exists k, 2 <= k /\ id = with_suffix id0 k /\
               forall j, 2 <= j < k -> index_has index (with_suffix id0 j) = true).
Proof.
  unfold resolve_id. destruct (index_has index id0) eqn:E.
  - destruct (free_suffix_total index id0) as [k Hk]. rewrite Hk. simpl.
    apply free_suffix_Some in Hk as (Hle & Hfree & Hall).
    exists (with_suffix id0 k). repeat split; [exact Hfree|discriminate|].
    intros _. exists k. repeat split; [exact Hle|exact Hall].
  - exists id0. repeat split; [exact E|]. discriminate.
Qed.

Lemma upsert_entry_fresh entry index :
  index_has index (ie_id entry) = false ->
  upsert_entry entry index = (index ++ [entry])%list.
Proof.
  intros H. unfold upsert_entry. rewrite (index_has_false_find _ _ H). reflexivity.
Qed.

Lemma candidate_id_truthy instant target : Js.truthy (candidate_id instant target) = true.
Proof.
  unfold candidate_id.
  destruct (Js.slice0 10 instant) as [|c s]; reflexivity.
Qed.

Lemma with_suffix_truthy id k : Js.truthy (with_suffix id k) = true.
Proof. unfold with_suffix. destruct id; reflexivity. Qed.

(** What [createEngagement] does, for every target and every directory. *)
Lemma createEngagement_spec params w :
  let index := default [] (index_json w) in
  let id0 := candidate_id (clock w (tick w)) (cp_target params) in
  exists meta w1,
    createEngagement params w = (Ok meta, w1) /\
    resolve_id index id0 = Some (m_id meta) /\
    Js.truthy (m_id meta) = true /\
    m_status meta = active /\
    m_findings meta = [] /\
    state_json w1 = Some (mkAppState (Some (m_id meta))) /\
    metadata_json w1 = <[m_id meta := meta]> (metadata_json w) /\
    index_json w1 = Some (index ++ [buildIndexEntry meta])%list /\
    evidence_files w1 = evidence_files w /\
    clock w1 = clock w /\
    tick w1 = S (S (tick w)).
Proof.
  intros index id0.
  destruct (resolve_id_spec index id0) as (id & Hres & Hfresh & Hno & Hyes).
  unfold createEngagement. run_m.
  change (index_json (set_tick (S (tick w)) w)) with (index_json w).
  fold index. fold id0. rewrite Hres.
  eexists _, _. split; [reflexivity|]. cbn.
  split; [reflexivity|]. split.
  { destruct (index_has index id0) eqn:E.
    - destruct (Hyes eq_refl) as (k & _ & -> & _). apply with_suffix_truthy.
    - rewrite (Hno eq_refl). apply candidate_id_truthy. }
  repeat split.
  f_equal. apply upsert_entry_fresh. exact Hfresh.
Qed.

(** C6.  [createEngagement] always returns, and never under an id of the
    index: a free candidate is taken as it is; a taken one gets the first
    suffix [-2], [-3], ... that the index does not have, and every smaller
    suffix is in the index.  The entries of the index and the other records
    are kept.  A second creation gets an id different from the first; for
    the same target on the same date, with the candidate and its [-2] unused
    before, the first is the candidate and the second is the candidate
    followed by [-2]. *)
Theorem create_resolves_collisions (params : CreateParams) (w : World) :
  let index := default [] (index_json w) in
  let id0 := candidate_id (clock w (tick w)) (cp_target params) in
  exists meta w1,
    createEngagement params w = (Ok meta, w1) /\
    index_has index (m_id meta) = false /\
    index_json w1 = Some (index ++ [buildIndexEntry meta])%list /\
    (forall id', id' <> m_id meta -> metadata_json w1 !! id' = metadata_json w !! id') /\
    (index_has index id0 = false -> m_id meta = id0) /\
    (index_has index id0 = true ->
     exists k, 2 <= k /\ m_id meta = with_suffix id0 k /\
               forall j, 2 <= j < k -> index_has index (with_suffix id0 j) = true) /\
    forall params2, exists meta2 w2,
      createEngagement params2 w1 = (Ok meta2, w2) /\
      m_id meta2 <> m_id meta /\
      (cp_target params2 = cp_target params ->
       Js.slice0 10 (clock w (S (S (tick w)))) = Js.slice0 10 (clock w (tick w)) ->
       index_has index id0 = false ->
       index_has index (with_suffix id0 2) = false ->
       m_id meta = id0 /\
       m_id meta2 = with_suffix id0 2 /\
       Js.endsWith (m_id meta2) "-2" = true).
Proof.
  intros index id0.
  destruct (createEngagement_spec params w)
    as (meta & w1 & Hrun & Hres & _ & _ & _ & _ & Hmeta & Hidx & _ & Hclk & Htick).
  fold index id0 in Hres, Hidx.
  destruct (resolve_id_spec index id0) as (id & Hres' & Hfresh & Hno & Hyes).
  rewrite Hres in Hres'. injection Hres' as <-.
  exists meta, w1. split; [exact Hrun|]. split; [exact Hfresh|].
  split; [exact Hidx|]. split.
  { intros id' Hne. rewrite Hmeta. apply lookup_insert_ne. congruence. }
  split; [exact Hno|]. split; [exact Hyes|].
  intros params2.
  destruct (createEngagement_spec params2 w1)
    as (meta2 & w2 & Hrun2 & Hres2 & _).
  rewrite Hidx, Hclk, Htick in Hres2. simpl in Hres2.
  destruct (resolve_id_spec (index ++ [buildIndexEntry meta])
              (candidate_id (clock w (S (S (tick w)))) (cp_target params2)))
    as (id2 & Hres2' & Hfresh2 & Hno2 & Hyes2).
  rewrite Hres2 in Hres2'. injection Hres2' as <-.
  exists meta2, w2. split; [exact Hrun2|].
  assert (index_has (index ++ [buildIndexEntry meta]) (m_id meta) = true) as Hin.
  { rewrite index_has_snoc. simpl. rewrite String.eqb_refl. apply orb_true_r. }
  split; [congruence|].
  intros Htarget Hdate Hfree0 Hfree2.
  specialize (Hno Hfree0).
  assert (candidate_id (clock w (S (S (tick w)))) (cp_target params2) = id0) as Hcand.
  { unfold id0, candidate_id. rewrite Htarget, Hdate. reflexivity. }
  rewrite Hcand in Hyes2. rewrite Hno in Hin.
  destruct (Hyes2 Hin) as (k & Hk & Hid2 & Hbelow).
  assert (k = 2) as ->.
  { destruct (decide (k = 2)) as [|Hne]; [assumption|exfalso].
    assert (index_has (index ++ [buildIndexEntry meta]) (with_suffix id0 2) = true) as H2
      by (apply Hbelow; lia).
    rewrite index_has_snoc, Hfree2 in H2. simpl in H2.
    apply String.eqb_eq in H2. rewrite Hno in H2.
    symmetry in H2. exact (with_suffix_longer _ _ H2). }
  split; [exact Hno|]. split; [exact Hid2|].
  rewrite Hid2. unfold with_suffix. apply (endsWith_append id0 "-2").
Qed.

(** C6 on the test of the suite: [Test Corp] created twice on one day. *)
Lemma create_resolves_collisions_witness :
  exists meta meta2 w1 w2,
    createEngagement test_corp (empty_world noon) = (Ok meta, w1) /\
    createEngagement test_corp w1 = (Ok meta2, w2) /\
    m_id meta = "2026-03-01-test-corp" /\
    m_id meta2 = "2026-03-01-test-corp-2" /\
    Js.endsWith (m_id meta2) "-2" = true.
Proof.
  destruct (create_resolves_collisions test_corp (empty_world noon))
    as (meta & w1 & Hrun & _ & _ & _ & _ & _ & Hsecond).
  destruct (Hsecond test_corp) as (meta2 & w2 & Hrun2 & _ & Hsame).
  destruct Hsame as (H1 & H2 & H3); [reflexivity..|].
  exists meta, meta2, w1, w2.
  split; [exact Hrun|]. split; [exact Hrun2|].
  split; [exact H1|]. split; [exact H2|exact H3].
Defined.

(** ** Closing deactivates *)

Lemma write_hosts_spec id hosts w :
  exists hm,
    foldr (fun host rest => writeHostMd id host;; rest) (mret tt) hosts w
    = (Ok tt, set_host_md hm w).
Proof.
  revert w. induction hosts as [|host hosts IH]; intros w.
  - exists (host_md w). destruct w. reflexivity.
  - cbn [foldr]. unfold mbind at 1. unfold M_bind at 1.
    unfold writeHostMd at 1. unfold modify at 1.
    destruct (IH (set_host_md (<[(id, h_ip host) := host]> (host_md w)) w)) as [hm E].
    rewrite E. exists hm. reflexivity.
Qed.

Lemma closeEngagement_spec params w r w' :
  closeEngagement params w = (Ok r, w') ->
  exists id meta,
    requireActiveEngagement w = (Ok id, w) /\
    metadata_json w !! id = Some meta /\
    let meta' := closed_record params (clock w (tick w)) meta in
    r = (m_id meta', m_status meta') /\
    m_status meta' = default completed (status_of_close <$> cl_status params) /\
    state_json w' = Some (mkAppState None) /\
    metadata_json w' = <[id := meta']> (metadata_json w) /\
    index_json w' = Some (upsert_entry (buildIndexEntry meta') (default [] (index_json w))).
Proof.
  unfold closeEngagement. unfold mbind at 1. unfold M_bind at 1.
  destruct (requireActiveEngagement w) as [[id|e] w0] eqn:Ereq; [|discriminate].
  apply requireActiveEngagement_same in Ereq as Hw0. subst w0.
  unfold mbind at 1. unfold M_bind at 1. unfold readMetadata at 1. unfold gets.
  destruct (metadata_json w !! id) as [meta|] eqn:Emeta; [|discriminate].
  intros Hrun. exists id, meta. split; [reflexivity|]. split; [exact Emeta|].
  revert Hrun. run_m.
  fold (closed_record params (clock w (tick w)) meta).
  set (meta' := closed_record params (clock w (tick w)) meta).
  match goal with
  | |- context [foldr ?f ?z (m_hosts meta') ?w1] =>
      destruct (write_hosts_spec id (m_hosts meta') w1) as [hm E]
  end.
  unfold mbind, M_bind, writeHostMd, modify, mret, M_ret in E.
  rewrite E. intros [= <- <-].
  split; [reflexivity|]. split; [|repeat split].
  unfold meta', closed_record.
  destruct (cl_executive_summary params) as [s|]; [destruct (Js.truthy s)|];
    reflexivity.
Qed.


Lemma requireActiveEngagement_active w id :
  state_json w = Some (mkAppState (Some id)) -> Js.truthy id = true ->
  requireActiveEngagement w = (Ok id, w).
Proof.
  intros H Ht. unfold requireActiveEngagement, getActiveEngagementId, getState.
  unfold_m. rewrite H. simpl. rewrite Ht. reflexivity.
Qed.






(** ** Evidence *)










(** ** Merging services *)

Lemma overwrite_service_endpoint svc matched :
  svc_port (overwrite_service svc matched) = svc_port matched /\
  svc_proto (overwrite_service svc matched) = svc_proto matched.
Proof.
  unfold overwrite_service.
  destruct (Js.truthy (svc_service svc)), (Js.truthy (svc_version svc)),
    (Js.truthy (svc_notes svc)); split; reflexivity.
Qed.

(** The fields of a matching entry after the three guarded assignments. *)
Lemma overwrite_service_fields svc matched :
  svc_service (overwrite_service svc matched) =
    (if Js.truthy (svc_service svc) then svc_service svc else svc_service matched) /\
  svc_version (overwrite_service svc matched) =
    (if Js.truthy (svc_version svc) then svc_version svc else svc_version matched) /\
  svc_notes (overwrite_service svc matched) =
    (if Js.truthy (svc_notes svc) then svc_notes svc else svc_notes matched).
Proof.
  unfold overwrite_service.
  destruct (Js.truthy (svc_service svc)), (Js.truthy (svc_version svc)),
    (Js.truthy (svc_notes svc)); repeat split.
Qed.

Lemma merge_service_endpoints merged svc :
  endpoints (merge_service merged svc) =
  if bool_decide ((svc_port svc, svc_proto svc) ∈ endpoints merged)
  then endpoints merged
  else endpoints merged ++ [(svc_port svc, svc_proto svc)].
Proof.
  unfold merge_service, endpoints.
  destruct (list_find _ merged) as [[i x]|] eqn:E.
  - apply list_find_Some in E as (Hi & [Hp Hq] & _).
    rewrite bool_decide_eq_true_2.
    + rewrite list_fmap_insert. apply list_insert_id.
      rewrite list_lookup_fmap, Hi. simpl.
      destruct (overwrite_service_endpoint svc x) as [-> ->]. reflexivity.
    + apply list_elem_of_fmap. exists x. split; [congruence|].
      eapply list_elem_of_lookup_2, Hi.
  - apply list_find_None in E.
    rewrite bool_decide_eq_false_2; [rewrite fmap_app; reflexivity|].
    intros Hin. apply list_elem_of_fmap in Hin as (x & Hx & Hin).
    eapply Forall_forall in E; [|exact Hin].
    apply E. split; congruence.
Qed.

Lemma merge_service_length merged svc :
  (length merged <= length (merge_service merged svc))%nat.
Proof.
  unfold merge_service. destruct (list_find _ merged) as [[i x]|].
  - rewrite length_insert. lia.
  - rewrite length_app. simpl. lia.
Qed.

Lemma merge_service_NoDup merged svc :
  NoDup (endpoints merged) -> NoDup (endpoints (merge_service merged svc)).
Proof.
  intros Hnd. rewrite merge_service_endpoints. case_bool_decide as Hin; [exact Hnd|].
  apply NoDup_app. split; [exact Hnd|]. split; [|apply NoDup_singleton].
  intros x Hx Hx'. apply list_elem_of_singleton in Hx'. congruence.
Qed.

(** The merge never shortens the list, and adds no second entry for a pair
    of port and protocol to a list that has none. *)
Lemma mergeServices_grows existing incoming :
  (length existing <= length (mergeServices existing incoming))%nat /\
  (NoDup (endpoints existing) -> NoDup (endpoints (mergeServices existing incoming))).
Proof.
  unfold mergeServices. revert existing.
  induction incoming as [|svc incoming IH]; intros existing; simpl; [split; [lia|auto]|].
  destruct (IH (merge_service existing svc)) as [Hlen Hnd].
  pose proof (merge_service_length existing svc).
  split; [lia|]. intros H0. apply Hnd, merge_service_NoDup, H0.
Qed.

(** The service name the merge receives is never empty: [to_service] has
    already put [unknown] for a missing one. *)
Lemma to_service_name_truthy s : Js.truthy (svc_service (to_service s)) = true.
Proof.
  unfold to_service. simpl. destruct (sd_service s) as [[|c n]|]; reflexivity.
Qed.

(** A host that is discovered again keeps its hostname and OS unless they
    were empty, and loses no service. *)
Lemma merge_host_keeps params host :
  (Js.truthy (h_hostname host) = true ->
   h_hostname (merge_host params host) = h_hostname host) /\
  (Js.truthy (h_os host) = true -> h_os (merge_host params host) = h_os host) /\
  (length (h_services host) <= length (h_services (merge_host params host)))%nat /\
  (NoDup (endpoints (h_services host)) ->
   NoDup (endpoints (h_services (merge_host params host)))).
Proof.
  unfold merge_host.
  destruct (supplied (dp_hostname params) && negb (Js.truthy (h_hostname host)))%bool eqn:E1;
    cbn [h_os h_hostname h_services set_h_hostname];
    (destruct (supplied (dp_os params) && negb (Js.truthy (h_os host)))%bool eqn:E2;
     cbn [h_os h_hostname h_services set_h_os]);
    (destruct (dp_services params) as [services|];
     cbn [h_os h_hostname h_services set_h_services];
     [destruct (mergeServices_grows (h_services host) (to_service <$> services))
        as [Hlen Hnd]|]);
    (split; [|split; [|split]]); auto;
    intros Ht; rewrite Ht in *; simpl in *;
    rewrite ?andb_false_r in *; congruence.
Qed.

(** Whatever was known, a re-discovery that omits the service name of a
    known port stores [unknown] for it; an omitted version or an omitted
    note leaves the stored one. *)
Lemma omitted_service_fields existing sd i matched :
  list_find (fun s => same_endpoint s (to_service sd)) existing = Some (i, matched) ->
  exists merged,
    mergeServices existing [to_service sd] !! i = Some merged /\
    (sd_service sd = None -> svc_service merged = "unknown") /\
    (sd_version sd = None -> svc_version merged = svc_version matched) /\
    (sd_notes sd = None -> svc_notes merged = svc_notes matched).
Proof.
  intros Hfind. unfold mergeServices. simpl. unfold merge_service. rewrite Hfind.
  apply list_find_Some in Hfind as (Hi & _).
  exists (overwrite_service (to_service sd) matched).
  split; [apply list_lookup_insert_eq; eapply lookup_lt_Some, Hi|].
  destruct (overwrite_service_fields (to_service sd) matched) as (-> & -> & ->).
  unfold to_service. simpl.
  repeat split; intros ->; reflexivity.
Qed.

(** C1, where the code departs from it.  Port 22 is first discovered as
    [ssh], [OpenSSH 8.9], with a note; it is discovered again with a version
    and no service name, as the test suite does.  The version is updated and
    the note is kept, but the service name is now [unknown]: [discoverHost]
    fills the missing name in before [mergeServices] tests whether one was
    given. *)
Theorem rediscovery_resets_service_name :
  services_of (discoverHost ssh_first created_world)
  = Some [mkService 22 tcp "ssh" "OpenSSH 8.9" "key authentication only"] /\
  services_of (discoverHost ssh_again (snd (discoverHost ssh_first created_world)))
  = Some [mkService 22 tcp "unknown" "OpenSSH 9.0" "key authentication only"].
Proof. split; vm_compute; reflexivity. Qed.

(** C2, where the code departs from it.  A first discovery that lists port
    22 twice stores both entries: the branch that creates a host does not
    merge.  Discovering the host again leaves two entries for (22, tcp). *)
Theorem first_discovery_duplicates_survive :
  services_of (discoverHost twice_22 created_world)
  = Some [mkService 22 tcp "ssh" "" ""; mkService 22 tcp "ssh" "" ""] /\
  endpoints <$> services_of
    (discoverHost ssh_again (snd (discoverHost twice_22 created_world)))
  = Some [(22, tcp); (22, tcp)] /\
  ~ NoDup [(22, tcp); (22, tcp)].
Proof.
  split; [vm_compute; reflexivity|]. split; [vm_compute; reflexivity|].
  intros H. apply NoDup_cons in H as [H _]. apply H.
  apply list_elem_of_singleton. reflexivity.
Qed.

(** What a host keeps when it is discovered again, on the call itself. *)
Lemma discoverHost_known w meta params i host :
  loadActiveMetadata w = (Ok (Some meta), w) ->
  list_find (fun h => h_ip h = dp_ip params) (m_hosts meta) = Some (i, host) ->
  exists host' w',
    discoverHost params w = (Ok host', w') /\
    host' = set_h_updated_at (clock w (tick w)) (merge_host params host) /\
    (length (h_services host) <= length (h_services host'))%nat /\
    (NoDup (endpoints (h_services host)) -> NoDup (endpoints (h_services host'))) /\
    (Js.truthy (h_hostname host) = true -> h_hostname host' = h_hostname host) /\
    (Js.truthy (h_os host) = true -> h_os host' = h_os host).
Proof.
  intros Hload Hfind. unfold discoverHost. unfold_m. rewrite Hload.
  cbn beta iota. rewrite Hfind. run_m.
  eexists _, _. split; [reflexivity|]. split; [reflexivity|].
  destruct (merge_host_keeps params host) as (Hn & Ho & Hlen & Hnd).
  repeat split; assumption.
Qed.

(** ** The slug *)

Lemma slug_alnum_not_hyphen c : slug_alnum c = true -> Ascii.eqb c "-" = false.
Proof.
  intros H. destruct (Ascii.eqb_spec c "-") as [->|]; [discriminate H|reflexivity].
Qed.

Lemma no_double_hyphen_cons c t :
  (Ascii.eqb c "-" = false \/ Js.first_char t <> Some "-"%char) ->
  Js.no_double_hyphen t = true ->
  Js.no_double_hyphen (String c t) = true.
Proof.
  intros Hc Ht. destruct t as [|d t']; [reflexivity|].
  change (negb (Ascii.eqb c "-" && Ascii.eqb d "-")
          && Js.no_double_hyphen (String d t') = true)%bool.
  rewrite Ht, andb_true_r. destruct Hc as [->|Hd]; [reflexivity|].
  destruct (Ascii.eqb_spec d "-") as [->|]; [|apply negb_true_iff, andb_false_r].
  exfalso. apply Hd. reflexivity.
Qed.

Lemma no_double_hyphen_tail c t :
  Js.no_double_hyphen (String c t) = true -> Js.no_double_hyphen t = true.
Proof.
  destruct t as [|d t']; [reflexivity|].
  change (Js.no_double_hyphen (String c (String d t')))
    with (negb (Ascii.eqb c "-" && Ascii.eqb d "-")
          && Js.no_double_hyphen (String d t'))%bool.
  intros H. apply andb_true_iff in H as [_ H]. exact H.
Qed.

Lemma replace_runs_chars b s :
  Js.forallb_string slug_char (replace_runs b s) = true.
Proof.
  revert b. induction s as [|c s IH]; intros b; simpl; [reflexivity|].
  destruct (slug_alnum c) eqn:E; simpl.
  - unfold slug_char. rewrite E, IH. reflexivity.
  - destruct b; simpl; rewrite ?IH; reflexivity.
Qed.

Lemma replace_runs_in_run s :
  Js.first_char (replace_runs true s) <> Some "-"%char.
Proof.
  induction s as [|c s IH]; simpl; [discriminate|].
  destruct (slug_alnum c) eqn:E; [|exact IH].
  simpl. intros [= ->]. discriminate E.
Qed.

Lemma replace_runs_no_double b s :
  Js.no_double_hyphen (replace_runs b s) = true.
Proof.
  revert b. induction s as [|c s IH]; intros b; simpl; [reflexivity|].
  destruct (slug_alnum c) eqn:E.
  - apply no_double_hyphen_cons; [|apply IH].
    left. apply slug_alnum_not_hyphen, E.
  - destruct b; [apply IH|].
    apply no_double_hyphen_cons; [|apply IH].
    right. apply replace_runs_in_run.
Qed.

(** After the leading hyphen is gone the text does not start with one,
    when it had no two hyphens in a row. *)
Lemma strip_leading_hyphen_first s :
  Js.no_double_hyphen s = true ->
  Js.first_char (strip_leading_hyphen s) <> Some "-"%char.
Proof.
  destruct s as [|c t]; simpl; [discriminate|].
  destruct (Ascii.eqb_spec c "-") as [->|Hne]; [|simpl; congruence].
  destruct t as [|d t']; simpl; [discriminate|].
  destruct (Ascii.eqb_spec d "-") as [->|Hne]; [discriminate|].
  intros _ [= ->]. apply Hne. reflexivity.
Qed.

Lemma strip_leading_hyphen_keeps s :
  Js.forallb_string slug_char s = true -> Js.no_double_hyphen s = true ->
  Js.forallb_string slug_char (strip_leading_hyphen s) = true /\
  Js.no_double_hyphen (strip_leading_hyphen s) = true.
Proof.
  intros Hc Hd. destruct s as [|c t]; [split; reflexivity|]. simpl.
  destruct (Ascii.eqb c "-"); [|split; assumption].
  simpl in Hc. apply andb_true_iff in Hc as [_ Hc].
  split; [exact Hc|]. eapply no_double_hyphen_tail, Hd.
Qed.

Lemma strip_trailing_hyphen_cons c d t :
  strip_trailing_hyphen (String c (String d t))
  = String c (strip_trailing_hyphen (String d t)).
Proof. reflexivity. Qed.

Lemma forallb_string_cons p c t :
  Js.forallb_string p (String c t) = (p c && Js.forallb_string p t)%bool.
Proof. reflexivity. Qed.

Lemma strip_trailing_hyphen_chars p s :
  Js.forallb_string p s = true ->
  Js.forallb_string p (strip_trailing_hyphen s) = true.
Proof.
  induction s as [|c t IH]; [reflexivity|]. intros H.
  simpl in H. apply andb_true_iff in H as [Hc Ht].
  destruct t as [|d t'].
  - simpl. destruct (Ascii.eqb c "-"); simpl; rewrite ?Hc; reflexivity.
  - rewrite strip_trailing_hyphen_cons, forallb_string_cons.
    rewrite Hc, (IH Ht). reflexivity.
Qed.

Lemma strip_trailing_hyphen_first s x :
  Js.first_char (strip_trailing_hyphen s) = Some x -> Js.first_char s = Some x.
Proof.
  destruct s as [|c [|d t]]; simpl; [discriminate| |auto].
  destruct (Ascii.eqb c "-"); [discriminate|auto].
Qed.

Lemma strip_trailing_hyphen_no_double s :
  Js.no_double_hyphen s = true ->
  Js.no_double_hyphen (strip_trailing_hyphen s) = true.
Proof.
  induction s as [|c t IH]; [reflexivity|]. intros H.
  destruct t as [|d t'].
  - simpl. destruct (Ascii.eqb c "-"); reflexivity.
  - rewrite strip_trailing_hyphen_cons.
    pose proof (no_double_hyphen_tail _ _ H) as Ht.
    apply no_double_hyphen_cons; [|apply IH, Ht].
    change (Js.no_double_hyphen (String c (String d t')))
      with (negb (Ascii.eqb c "-" && Ascii.eqb d "-")
            && Js.no_double_hyphen (String d t'))%bool in H.
    apply andb_true_iff in H as [H _]. apply negb_true_iff, andb_false_iff in H.
    destruct H as [H|H]; [left; exact H|right].
    intros Hf. apply strip_trailing_hyphen_first in Hf. injection Hf as ->.
    discriminate H.
Qed.

Lemma strip_trailing_hyphen_last s :
  Js.no_double_hyphen s = true ->
  Js.last_char (strip_trailing_hyphen s) <> Some "-"%char.
Proof.
  induction s as [|c t IH]; [discriminate|]. intros H.
  destruct t as [|d t'].
  - simpl. destruct (Ascii.eqb_spec c "-") as [->|Hne]; simpl; congruence.
  - rewrite strip_trailing_hyphen_cons.
    pose proof (no_double_hyphen_tail _ _ H) as Ht. specialize (IH Ht).
    destruct (strip_trailing_hyphen (String d t')) as [|e u] eqn:E; [|exact IH].
    (* the tail was a lone hyphen *)
    simpl. intros [= ->].
    destruct t' as [|e t'']; [|rewrite strip_trailing_hyphen_cons in E; discriminate E].
    simpl in E. destruct (Ascii.eqb d "-") eqn:Ed; [|discriminate E].
    apply Ascii.eqb_eq in Ed. subst d. discriminate H.
Qed.

Lemma slice0_chars p n s :
  Js.forallb_string p s = true -> Js.forallb_string p (Js.slice0 n s) = true.
Proof.
  revert s. induction n as [|n IH]; intros [|c s]; simpl; try reflexivity.
  intros H. apply andb_true_iff in H as [-> H]. apply IH, H.
Qed.

Lemma slice0_first n s x :
  Js.first_char (Js.slice0 n s) = Some x -> Js.first_char s = Some x.
Proof. destruct n, s; simpl; congruence. Qed.

Lemma slice0_no_double n s :
  Js.no_double_hyphen s = true -> Js.no_double_hyphen (Js.slice0 n s) = true.
Proof.
  revert s. induction n as [|n IH]; intros [|c s] H; try reflexivity.
  change (Js.slice0 (S n) (String c s)) with (String c (Js.slice0 n s)).
  pose proof (no_double_hyphen_tail _ _ H) as Ht.
  apply no_double_hyphen_cons; [|apply IH, Ht].
  destruct s as [|d s']; [right; destruct n; discriminate|].
  change (Js.no_double_hyphen (String c (String d s')))
    with (negb (Ascii.eqb c "-" && Ascii.eqb d "-")
          && Js.no_double_hyphen (String d s'))%bool in H.
  apply andb_true_iff in H as [H _]. apply negb_true_iff, andb_false_iff in H.
  destruct H as [H|H]; [left; exact H|right].
  intros Hf. apply slice0_first in Hf. injection Hf as ->. discriminate H.
Qed.

Lemma slice0_length n s : (String.length (Js.slice0 n s) <= n)%nat.
Proof.
  revert s. induction n as [|n IH]; intros [|c s]; simpl; try lia.
  specialize (IH s). lia.
Qed.

Lemma slice0_all n s : (String.length s <= n)%nat -> Js.slice0 n s = s.
Proof.
  revert s. induction n as [|n IH]; intros [|c s]; simpl; try reflexivity; try lia.
  intros H. rewrite IH by lia. reflexivity.
Qed.

(** What holds of every slug: at most 40 characters, all of them lowercase
    letters, digits or hyphens, no two hyphens in a row, no hyphen in front;
    and no hyphen at the end when nothing was cut off. *)
Lemma slugify_shape text :
  let uncut := strip_trailing_hyphen
                 (strip_leading_hyphen (replace_runs false (Js.toLowerCase text))) in
  (String.length (slugify text) <= 40)%nat /\
  Js.forallb_string slug_char (slugify text) = true /\
  Js.no_double_hyphen (slugify text) = true /\
  Js.first_char (slugify text) <> Some "-"%char /\
  ((String.length uncut <= 40)%nat -> Js.last_char (slugify text) <> Some "-"%char).
Proof.
  intros uncut. unfold slugify. fold uncut.
  pose proof (replace_runs_chars false (Js.toLowerCase text)) as Hc.
  pose proof (replace_runs_no_double false (Js.toLowerCase text)) as Hd.
  destruct (strip_leading_hyphen_keeps _ Hc Hd) as [Hc1 Hd1].
  pose proof (strip_leading_hyphen_first _ Hd) as Hf1.
  pose proof (strip_trailing_hyphen_chars _ _ Hc1) as Hc2.
  pose proof (strip_trailing_hyphen_no_double _ Hd1) as Hd2.
  pose proof (strip_trailing_hyphen_last _ Hd1) as Hl2.
  fold uncut in Hc2, Hd2, Hl2.
  split; [apply slice0_length|]. split; [apply slice0_chars, Hc2|].
  split; [apply slice0_no_double, Hd2|]. split.
  - intros H. apply slice0_first, strip_trailing_hyphen_first in H. contradiction.
  - intros Hlen. rewrite slice0_all by exact Hlen. exact Hl2.
Qed.

(** C5, where the code departs from it.  The target is 39 times [a], a
    space, and [b]: its slug is cut after 40 characters and ends with the
    hyphen that stood for the space, because the hyphens at the ends are
    removed before the cut, not after. *)
Theorem slug_cut_at_hyphen :
  slugify long_target = "aaaaaaaaaaaaaaaaaaaaaaaaaaaaaaaaaaaaaaa-" /\
  String.length (slugify long_target) = 40%nat /\
  Js.last_char (slugify long_target) = Some "-"%char /\
  candidate_id "2026-03-01T12:00:00.000Z" long_target
  = "2026-03-01-aaaaaaaaaaaaaaaaaaaaaaaaaaaaaaaaaaaaaaa-".
Proof. repeat split. Qed.

(** ** Finding ids *)
























(** * Further properties *)

(** ** Appending to text *)

Lemma prefix_append a b : String.prefix a (a +:+ b) = true.
Proof.
  induction a as [|c a IH]; [destruct b; reflexivity|].
  rewrite append_cons. simpl. destruct (ascii_dec c c); [exact IH|congruence].
Qed.

Lemma prefix_refl a : String.prefix a a = true.
Proof.
  induction a as [|c a IH]; [reflexivity|].
  simpl. destruct (ascii_dec c c); [exact IH|congruence].
Qed.

(** What was there stays in front of what is appended. *)
Lemma append_text_prefix current content :
  String.prefix current (append_text current content) = true.
Proof.
  unfold append_text. destruct current as [|c r]; [destruct content; reflexivity|].
  apply prefix_append.
Qed.

Lemma get_section_stamp s ts h :
  get_section s (set_h_updated_at ts h) = get_section s h.
Proof. destruct s; reflexivity. Qed.

Lemma get_set_section s v h : get_section s (set_section s v h) = v.
Proof. destruct s; reflexivity. Qed.

Lemma get_set_section_other s s' v h :
  s' <> s -> get_section s' (set_section s v h) = get_section s' h.
Proof. destruct s, s'; intros H; try reflexivity; congruence. Qed.

Lemma set_section_keeps s v h :
  h_ip (set_section s v h) = h_ip h /\
  h_hostname (set_section s v h) = h_hostname h /\
  h_os (set_section s v h) = h_os h /\
  h_first_seen (set_section s v h) = h_first_seen h /\
  h_services (set_section s v h) = h_services h.
Proof. destruct s; repeat split. Qed.

(** One [updateHost] on a known host. *)
Lemma updateHost_known w id meta params i host :
  active_record w id meta ->
  list_find (fun h => h_ip h = uh_ip params) (m_hosts meta) = Some (i, host) ->
  let host' :=
    set_h_updated_at (clock w (tick w))
      (set_section (uh_section params)
         (append_text (get_section (uh_section params) host) (uh_content params))
         host) in
  let meta' :=
    set_updated_at (clock w (S (tick w)))
      (set_hosts (<[i := host']> (m_hosts meta)) meta) in
  exists w',
    updateHost params w = (Ok host', w') /\
    active_record w' id meta' /\
    clock w' = clock w /\
    tick w' = S (S (tick w)).
Proof.
  intros Hact Hfind host' meta'.
  pose proof (loadActiveMetadata_active w id meta Hact) as Hload.
  destruct Hact as (Hs & Ht & Hm & Hid).
  unfold updateHost. unfold_m. rewrite Hload. cbn beta iota. rewrite Hfind. run_m.
  eexists. split; [reflexivity|]. split; [|split; reflexivity].
  split; [exact Hs|]. split; [exact Ht|]. split; [|exact Hid].
  cbn. rewrite Hid. apply lookup_insert_eq.
Qed.

(** X1.  [updateHost] on a known host only ever appends: the section named
    becomes the old text, a blank line and the new content (the content alone
    when the section was empty), so the old text stays in front; the other
    five sections, the services, the hostname and the OS are as they were.
    After two calls with [a] and then [b] on an empty section the text is [a],
    a blank line, [b]. *)
Theorem updateHost_is_retentive (w : World) (id : string) (meta : EngagementMetadata)
    (ip : string) (sec : HostSection) (i : nat) (host : Host) :
  active_record w id meta ->
  list_find (fun h => h_ip h = ip) (m_hosts meta) = Some (i, host) ->
  (forall content, exists host' w',
      updateHost (mkUpdateHostParams ip sec content) w = (Ok host', w') /\
      get_section sec host' = append_text (get_section sec host) content /\
      String.prefix (get_section sec host) (get_section sec host') = true /\
      (forall s, s <> sec -> get_section s host' = get_section s host) /\
      h_services host' = h_services host /\
      h_hostname host' = h_hostname host /\
      h_os host' = h_os host) /\
  (forall a b, exists h1 w1 h2 w2,
      updateHost (mkUpdateHostParams ip sec a) w = (Ok h1, w1) /\
      updateHost (mkUpdateHostParams ip sec b) w1 = (Ok h2, w2) /\
      get_section sec h2 = append_text (append_text (get_section sec host) a) b /\
      (get_section sec host = "" -> Js.truthy a = true ->
       get_section sec h2 = a +:+ blank_line +:+ b)).
Proof.
  intros Hact Hfind. split.
  - intros content.
    destruct (updateHost_known w id meta (mkUpdateHostParams ip sec content) i host
                Hact Hfind) as (w' & Hrun & _).
    cbn [uh_section uh_content uh_ip] in Hrun.
    eexists _, w'. split; [exact Hrun|].
    destruct (set_section_keeps sec
                (append_text (get_section sec host) content) host)
      as (_ & Hn & Ho & _ & Hsv).
    rewrite get_section_stamp, get_set_section.
    split; [reflexivity|]. split; [apply append_text_prefix|].
    split; [|split; [exact Hsv|split; [exact Hn|exact Ho]]].
    intros s Hs. rewrite get_section_stamp. apply get_set_section_other, Hs.
  - intros a b.
    destruct (updateHost_known w id meta (mkUpdateHostParams ip sec a) i host
                Hact Hfind) as (w1 & Hrun1 & Hact1 & _).
    cbn [uh_section uh_content uh_ip] in Hrun1, Hact1.
    set (h1 := set_h_updated_at (clock w (tick w))
                 (set_section sec (append_text (get_section sec host) a) host)) in *.
    assert (get_section sec h1 = append_text (get_section sec host) a) as Hh1
      by (unfold h1; rewrite get_section_stamp; apply get_set_section).
    assert (list_find (fun h => h_ip h = ip)
              (m_hosts (set_updated_at (clock w (S (tick w)))
                          (set_hosts (<[i := h1]> (m_hosts meta)) meta)))
            = Some (i, h1)) as Hfind1.
    { cbn [m_hosts set_updated_at set_hosts].
      apply list_find_insert_same with (x := host); [exact Hfind|].
      apply list_find_Some in Hfind as (_ & Hip & _).
      unfold h1. destruct sec; exact Hip. }
    destruct (updateHost_known w1 id _ (mkUpdateHostParams ip sec b) i h1
                Hact1 Hfind1) as (w2 & Hrun2 & _).
    cbn [uh_section uh_content uh_ip] in Hrun2.
    eexists _, w1, _, w2. split; [exact Hrun1|]. split; [exact Hrun2|].
    rewrite get_section_stamp, get_set_section, Hh1.
    split; [reflexivity|].
    intros Hempty Ha. rewrite Hempty.
    unfold append_text. cbn [Js.truthy]. rewrite Ha. reflexivity.
Qed.

(** X1 on the host of the example engagement: two notes on its enumeration. *)
Lemma updateHost_is_retentive_witness :
  exists h1 w1 h2 w2,
    updateHost (mkUpdateHostParams "10.0.0.1" enumeration "/admin (403)") one_host_world
    = (Ok h1, w1) /\
    updateHost (mkUpdateHostParams "10.0.0.1" enumeration "/api (200)") w1
    = (Ok h2, w2) /\
    get_section enumeration h2 = "/admin (403)" +:+ blank_line +:+ "/api (200)".
Proof.
  pose proof (fun m i h =>
                updateHost_is_retentive one_host_world "2026-03-01-test-corp" m
                  "10.0.0.1" enumeration i h) as T.
  edestruct T as [_ H].
  - repeat split; vm_compute; reflexivity.
  - vm_compute. reflexivity.
  - destruct (H "/admin (403)" "/api (200)")
      as (h1 & w1 & h2 & w2 & H1 & H2 & _ & H3).
    exists h1, w1, h2, w2. split; [exact H1|]. split; [exact H2|].
    apply H3; reflexivity.
Defined.

(** ** Unknown keys *)

Lemma resumeEngagement_unknown w id :
  metadata_json w !! id = None ->
  resumeEngagement id w = (Throw engagement_not_found, w).
Proof.
  intros H. unfold resumeEngagement, readMetadata. unfold_m. rewrite H. reflexivity.
Qed.



(** ** Notes of a finding *)

Lemma update_tail_notes params finding :
  f_notes (update_tail params finding)
  = (if supplied (uf_notes params)
     then append_text (f_notes finding) (Js.opt_or (uf_notes params) "")
     else f_notes finding) /\
  f_host (update_tail params finding) = f_host finding /\
  f_vulnerability (update_tail params finding) = f_vulnerability finding /\
  f_created_at (update_tail params finding) = f_created_at finding /\
  f_severity (update_tail params finding) = f_severity finding /\
  f_cvss (update_tail params finding) = f_cvss finding.
Proof.
  unfold update_tail, append_text, blank_line.
  destruct (uf_status params), (supplied (uf_evidence_file params)),
    (uf_notes params) as [[|c n]|]; cbn; repeat split.
Qed.

(** X3.  [updateFinding] appends its notes and never replaces them: the
    notes of the finding become the old notes, a blank line and the new ones
    (the new ones alone when there were none; nothing changes when the call
    gives none or empty ones), so the old notes stay in front.  The finding
    keeps its id, host, title and creation time, takes the place it had in the
    list, and every other finding is untouched. *)
Theorem updateFinding_appends_notes (w : World) (meta : EngagementMetadata)
    (params : UpdateFindingParams) (i : nat) (old : Finding) :
  loadActiveMetadata w = (Ok (Some meta), w) ->
  list_find (fun f => f_id f = uf_id params) (m_findings meta) = Some (i, old) ->
  cvss_accepted (uf_cvss params) = true ->
  exists finding w' meta',
    updateFinding params w = (Ok finding, w') /\
    f_notes finding
    = (if supplied (uf_notes params)
       then append_text (f_notes old) (Js.opt_or (uf_notes params) "")
       else f_notes old) /\
    String.prefix (f_notes old) (f_notes finding) = true /\
    f_id finding = f_id old /\
    f_host finding = f_host old /\
    f_vulnerability finding = f_vulnerability old /\
    f_created_at finding = f_created_at old /\
    metadata_json w' !! m_id meta = Some meta' /\
    m_findings meta' = <[i := finding]> (m_findings meta) /\
    length (m_findings meta') = length (m_findings meta) /\
    (forall j, j <> i -> m_findings meta' !! j = m_findings meta !! j).
Proof.
  intros Hload Hfind Hacc.
  unfold updateFinding. unfold_m. rewrite Hload. cbn beta iota. rewrite Hfind.
  unfold cvss_accepted in Hacc.
  destruct (uf_severity params) as [sev|];
    (destruct (uf_cvss params) as [c|];
     [apply negb_true_iff in Hacc; rewrite Hacc|]);
    run_m;
    match goal with
    | |- context [update_tail params ?f] =>
        destruct (update_tail_notes params f) as (Hn & Hh & Hv & Hc & _)
    end;
    (eexists _, _, _; split; [reflexivity|]);
    cbn [f_notes f_id f_host f_vulnerability f_created_at set_f_updated_at];
    rewrite Hn, update_tail_id, Hh, Hv, Hc;
    cbn [f_notes f_id f_host f_vulnerability f_created_at set_f_cvss set_f_severity];
    (split; [reflexivity|]);
    (split;
     [destruct (supplied (uf_notes params));
      [apply append_text_prefix|apply prefix_refl]|]);
    (split; [reflexivity|]); (split; [reflexivity|]); (split; [reflexivity|]);
    (split; [reflexivity|]); (split; [cbn; apply lookup_insert_eq|]);
    (split; [reflexivity|]); (split; [cbn; apply length_insert|]);
    intros j Hj; cbn; apply list_lookup_insert_ne; congruence.
Qed.

(** X3 on the scenario of the specification: notes [x], then notes [y]. *)
Lemma updateFinding_appends_notes_witness :
  exists f1 w1 f2 w2,
    updateFinding (update_with "F-001" None (Some "x")) one_finding_world = (Ok f1, w1) /\
    updateFinding (update_with "F-001" None (Some "y")) w1 = (Ok f2, w2) /\
    f_notes f2 = "x" +:+ blank_line +:+ "y".
Proof.
  pose proof (fun m =>
                updateFinding_appends_notes one_finding_world m
                  (update_with "F-001" None (Some "x"))) as T1.
  edestruct T1 as (f1 & w1 & m1 & H1 & Hn1 & _);
    [vm_compute; reflexivity|vm_compute; reflexivity|reflexivity|].
  pose proof (fun m =>
                updateFinding_appends_notes w1 m
                  (update_with "F-001" None (Some "y"))) as T2.
  edestruct T2 as (f2 & w2 & m2 & H2 & Hn2 & _);
    [rewrite (surjective_pairing (updateFinding _ one_finding_world)) in H1;
     injection H1 as _ <-; vm_compute; reflexivity
    |rewrite (surjective_pairing (updateFinding _ one_finding_world)) in H1;
     injection H1 as _ <-; vm_compute; reflexivity
    |reflexivity|].
  exists f1, w1, f2, w2. split; [exact H1|]. split; [exact H2|].
  rewrite Hn2. cbn [supplied update_with uf_notes Js.truthy Js.opt_or Js.or_else].
  rewrite (surjective_pairing (updateFinding _ one_finding_world)) in H1.
  injection H1 as <- _. vm_compute. reflexivity.
Defined.

(** ** The index *)

Section Find.
Context {A : Type} (P : A -> Prop) `{!forall x, Decision (P x)}.

Lemma list_find_insert_other (l : list A) i x y :
  l !! i = Some x -> ~ P x -> ~ P y ->
  list_find P (<[i := y]> l) = list_find P l.
Proof.
  revert i. induction l as [|z l IH]; intros [|i] Hi Hx Hy; try discriminate Hi;
    csimpl in *.
  - injection Hi as ->. rewrite !decide_False by assumption. reflexivity.
  - case_decide; [reflexivity|]. rewrite (IH i Hi Hx Hy). reflexivity.
Qed.

Lemma list_find_snoc_other (l : list A) y :
  ~ P y -> list_find P (l ++ [y]) = list_find P l.
Proof.
  intros Hy. induction l as [|z l IH]; csimpl.
  - rewrite decide_False by assumption. reflexivity.
  - case_decide; [reflexivity|]. rewrite IH. reflexivity.
Qed.

Lemma filter_insert_out (l : list A) i x y :
  l !! i = Some x -> ~ P x -> ~ P y ->
  filter P (<[i := y]> l) = filter P l.
Proof.
  revert i. induction l as [|z l IH]; intros [|i] Hi Hx Hy; try discriminate Hi.
  - injection Hi as ->. csimpl. rewrite !filter_cons, !decide_False by assumption.
    reflexivity.
  - csimpl in *. rewrite !filter_cons. rewrite (IH i Hi Hx Hy). reflexivity.
Qed.

Lemma filter_all (l : list A) : Forall P l -> filter P l = l.
Proof.
  induction 1 as [|z l Hz Hl IH]; [reflexivity|].
  rewrite filter_cons, decide_True by assumption. rewrite IH. reflexivity.
Qed.

Lemma filter_none (l : list A) : Forall (fun x => ~ P x) l -> filter P l = [].
Proof.
  induction 1 as [|z l Hz Hl IH]; [reflexivity|].
  rewrite filter_cons, decide_False by assumption. exact IH.
Qed.
End Find.

Lemma upsert_entry_ids entry index :
  ie_id <$> upsert_entry entry index =
  if index_has index (ie_id entry)
  then ie_id <$> index
  else (ie_id <$> index) ++ [ie_id entry].
Proof.
  destruct (index_has index (ie_id entry)) eqn:E.
  - unfold upsert_entry.
    destruct (list_find _ index) as [[i x]|] eqn:Ef.
    + apply list_find_Some in Ef as (Hi & Hx & _).
      rewrite list_fmap_insert. apply list_insert_id.
      rewrite list_lookup_fmap, Hi. simpl. congruence.
    + exfalso. apply list_find_None in Ef. apply index_has_true in E.
      apply list_elem_of_fmap in E as (x & Hx & Hin).
      eapply Forall_forall in Ef; [|exact Hin]. congruence.
  - rewrite (upsert_entry_fresh _ _ E), fmap_app. reflexivity.
Qed.

Lemma index_has_false_all index id :
  index_has index id = false -> Forall (fun e => ie_id e <> id) index.
Proof.
  intros H. apply Forall_forall. intros e He Heq.
  assert (index_has index id = true) as Ht; [|congruence].
  apply index_has_true, list_elem_of_fmap. exists e. split; [congruence|exact He].
Qed.

(** X4.  [updateIndexEntry] touches the entry of one id only: the entry
    found for any other id, and its position, are what they were; an index
    without repeated ids stays so, and grows by one exactly when the id was
    new.  [removeIndexEntry] of that id then leaves no entry of it, keeps the
    entries of the other ids in their order, and gives back the index there
    was before when the id had been new. *)
Theorem index_updates_are_local (entry : IndexEntry) (w : World) :
  let index := default [] (index_json w) in
  exists w1 w2 index1 index2,
    updateIndexEntry entry w = (Ok tt, w1) /\
    index_json w1 = Some index1 /\
    removeIndexEntry (ie_id entry) w1 = (Ok tt, w2) /\
    index_json w2 = Some index2 /\
    metadata_json w2 = metadata_json w /\
    state_json w2 = state_json w /\
    (exists i, list_find (fun e => ie_id e = ie_id entry) index1 = Some (i, entry)) /\
    (forall id, id <> ie_id entry ->
       list_find (fun e => ie_id e = id) index1
       = list_find (fun e => ie_id e = id) index) /\
    (NoDup (ie_id <$> index) -> NoDup (ie_id <$> index1)) /\
    length index1
    = (if index_has index (ie_id entry) then length index else S (length index)) /\
    index_has index2 (ie_id entry) = false /\
    index2 = filter (fun e => ie_id e <> ie_id entry) index /\
    (index_has index (ie_id entry) = false -> index2 = index).
Proof.
  intros index.
  exists (set_index_json (Some (upsert_entry entry index)) w).
  exists (set_index_json
            (Some (filter (fun e => ie_id e <> ie_id entry) (upsert_entry entry index)))
            w).
  exists (upsert_entry entry index).
  exists (filter (fun e => ie_id e <> ie_id entry) (upsert_entry entry index)).
  split; [reflexivity|]. split; [reflexivity|]. split; [reflexivity|].
  split; [reflexivity|]. split; [reflexivity|]. split; [reflexivity|].
  split; [apply upsert_entry_find|].
  assert (filter (fun e => ie_id e <> ie_id entry) (upsert_entry entry index)
          = filter (fun e => ie_id e <> ie_id entry) index) as Hfilter.
  { unfold upsert_entry. destruct (list_find _ index) as [[i x]|] eqn:Ef.
    - apply list_find_Some in Ef as (Hi & Hx & _).
      apply (filter_insert_out _ index i x entry Hi); intros H; apply H;
        [exact Hx|reflexivity].
    - rewrite filter_app, filter_cons, decide_False by (intros H; apply H; reflexivity).
      rewrite filter_nil. apply app_nil_r. }
  split; [|split; [|split; [|split]]].
  - intros id Hne. unfold upsert_entry.
    destruct (list_find (fun e => ie_id e = ie_id entry) index) as [[i x]|] eqn:Ef.
    + apply list_find_Some in Ef as (Hi & Hx & _).
      apply (list_find_insert_other _ index i x entry Hi); congruence.
    + apply list_find_snoc_other. congruence.
  - intros Hnd. rewrite upsert_entry_ids.
    destruct (index_has index (ie_id entry)) eqn:E; [exact Hnd|].
    apply NoDup_app. split; [exact Hnd|]. split; [|apply NoDup_singleton].
    intros x Hx Hx'. apply list_elem_of_singleton in Hx'. subst x.
    apply index_has_true in Hx. congruence.
  - rewrite <- (length_fmap ie_id (upsert_entry entry index)), upsert_entry_ids.
    destruct (index_has index (ie_id entry));
      rewrite ?length_app, length_fmap; simpl; lia.
  - destruct (index_has _ (ie_id entry)) eqn:E; [|reflexivity].
    apply index_has_true, list_elem_of_fmap in E as (e & He & Hin).
    apply list_elem_of_filter in Hin as [Hne _]. congruence.
  - split; [exact Hfilter|]. intros Hnew. rewrite Hfilter.
    apply filter_all, index_has_false_all, Hnew.
Qed.

(** ** Listing and resuming *)

Lemma listEngagements_spec w :
  listEngagements w
  = (Ok ((fun e => (e, bool_decide
                         (Some (ie_id e)
                          = current_engagement_id
                              (default (mkAppState None) (state_json w)))))
           <$> default [] (index_json w)), w).
Proof. reflexivity. Qed.

(** X5.  [listEngagements] returns the index in its order and marks an
    entry as current exactly when its id is the active one.  Right after
    [createEngagement] exactly one entry is marked, the new one; right after
    [closeEngagement] none is. *)
Theorem listing_marks_the_active (w : World) :
  (exists l,
      listEngagements w = (Ok l, w) /\
      fst <$> l = default [] (index_json w) /\
      forall e b, (e, b) ∈ l ->
        (b = true <->
         Some (ie_id e)
         = current_engagement_id (default (mkAppState None) (state_json w)))) /\
  (forall params, exists meta w1 l,
      createEngagement params w = (Ok meta, w1) /\
      listEngagements w1 = (Ok l, w1) /\
      filter (fun x => snd x = true) l = [(buildIndexEntry meta, true)]) /\
  (forall params r w1,
      closeEngagement params w = (Ok r, w1) ->
      exists l,
        listEngagements w1 = (Ok l, w1) /\
        length l = length (default [] (index_json w1)) /\
        Forall (fun x => snd x = false) l).
Proof.
  split; [|split].
  - eexists. split; [apply listEngagements_spec|]. split.
    + rewrite <- list_fmap_compose. apply list_fmap_id.
    + intros e b Hin. apply list_elem_of_fmap in Hin as (e' & [= -> ->] & _).
      apply bool_decide_eq_true.
  - intros params.
    destruct (createEngagement_spec params w)
      as (meta & w1 & Hrun & Hres & _ & _ & _ & Hs & _ & Hidx & _).
    destruct (resolve_id_spec (default [] (index_json w))
                (candidate_id (clock w (tick w)) (cp_target params)))
      as (id & Hres' & Hfresh & _).
    rewrite Hres in Hres'. injection Hres' as <-.
    exists meta, w1. eexists. split; [exact Hrun|].
    split; [apply listEngagements_spec|].
    set (index := default [] (index_json w)) in *.
    rewrite Hs, Hidx. cbv [default from_option Datatypes.id current_engagement_id].
    rewrite fmap_app, filter_app. cbn [fmap list_fmap].
    rewrite (bool_decide_eq_true_2
               (Some (ie_id (buildIndexEntry meta)) = Some (m_id meta)))
      by reflexivity.
    rewrite filter_none.
    + rewrite app_nil_l, filter_cons, decide_True by reflexivity. reflexivity.
    + apply Forall_fmap, Forall_forall. intros e He. cbn.
      intros Hb. apply bool_decide_eq_true in Hb. injection Hb as Hb.
      apply index_has_false_all in Hfresh.
      eapply Forall_forall in Hfresh; [|exact He]. contradiction.
  - intros params r w1 Hclose.
    destruct (closeEngagement_spec params w r w1 Hclose)
      as (id & meta & _ & _ & _ & _ & Hs & _).
    eexists. split; [apply listEngagements_spec|].
    split; [apply length_fmap|].
    rewrite Hs. apply Forall_fmap, Forall_forall. intros e _. reflexivity.
Qed.

(** X5 after the example engagement has been closed. *)
Lemma listing_marks_the_active_witness :
  exists l,
    listEngagements (snd (closeEngagement (mkCloseParams None None) created_world))
    = (Ok l, snd (closeEngagement (mkCloseParams None None) created_world)) /\
    length l = 1%nat /\
    Forall (fun x => snd x = false) l.
Proof.
  destruct (listing_marks_the_active created_world) as (_ & _ & H).
  destruct (H (mkCloseParams None None) ("2026-03-01-test-corp", completed)
              (snd (closeEngagement (mkCloseParams None None) created_world)))
    as (l & Hl & Hlen & Hall); [vm_compute; reflexivity|].
  exists l. split; [exact Hl|]. split; [exact Hlen|exact Hall].
Defined.

(** X4 on the index of the example engagement and an entry of a new id. *)
Lemma index_updates_are_local_witness :
  exists w1 w2,
    updateIndexEntry
      (mkIndexEntry "2026-03-02-other" "Other" active "t" "t" 0 0 0 0) created_world
    = (Ok tt, w1) /\
    removeIndexEntry "2026-03-02-other" w1 = (Ok tt, w2) /\
    index_json w2 = index_json created_world.
Proof.
  destruct (index_updates_are_local
              (mkIndexEntry "2026-03-02-other" "Other" active "t" "t" 0 0 0 0)
              created_world)
    as (w1 & w2 & i1 & i2 & H1 & _ & H2 & Hi2 & _ & _ & _ & _ & _ & _ & _ & _ & Hback).
  exists w1, w2. split; [exact H1|]. split; [exact H2|].
  rewrite Hi2, Hback; reflexivity.
Defined.

Lemma resumeEngagement_known w id meta :
  metadata_json w !! id = Some meta ->
  resumeEngagement id w
  = (Ok (meta, pending_todos (m_todos meta)), set_state_json (Some (mkAppState (Some id))) w).
Proof.
  intros H. unfold resumeEngagement, readMetadata, setActiveEngagement, setState.
  unfold_m. rewrite H. reflexivity.
Qed.

(** X6.  [resumeEngagement] of an id that has a record makes it the active
    one, whatever was active before, returns the record as it is stored with
    the number of its pending TODOs, and writes nothing else.  In particular
    an engagement that was closed can be resumed: it is active again and its
    status is still the one it was closed with. *)
Theorem resume_keeps_the_record (w : World) (id : string) (meta : EngagementMetadata) :
  metadata_json w !! id = Some meta ->
  Js.truthy id = true ->
  (exists w',
      resumeEngagement id w = (Ok (meta, pending_todos (m_todos meta)), w') /\
      requireActiveEngagement w' = (Ok id, w') /\
      loadActiveMetadata w' = (Ok (Some meta), w') /\
      metadata_json w' = metadata_json w /\
      index_json w' = index_json w /\
      evidence_files w' = evidence_files w) /\
  (forall params r w1,
      m_id meta = id ->
      state_json w = Some (mkAppState (Some id)) ->
      closeEngagement params w = (Ok r, w1) ->
      exists meta1 n w2,
        resumeEngagement id w1 = (Ok (meta1, n), w2) /\
        m_status meta1 = default completed (status_of_close <$> cl_status params) /\
        active_record w2 id meta1).
Proof.
  intros Hm Ht. split.
  - eexists. split; [apply resumeEngagement_known, Hm|].
    split; [apply requireActiveEngagement_active; [reflexivity|exact Ht]|].
    split; [|repeat split].
    unfold loadActiveMetadata. unfold_m.
    rewrite (requireActiveEngagement_active _ id) by (reflexivity || exact Ht).
    unfold readMetadata, gets. cbn [metadata_json set_state_json]. rewrite Hm.
    reflexivity.
  - intros params r w1 Hid Hs Hclose.
    destruct (closeEngagement_spec params w r w1 Hclose)
      as (id' & meta0 & Hreq & Hmeta0 & _ & Hstatus & Hs1 & Hm1 & _).
    rewrite (requireActiveEngagement_active w id Hs Ht) in Hreq.
    injection Hreq as <-. rewrite Hm in Hmeta0. injection Hmeta0 as <-.
    set (meta1 := closed_record params (clock w (tick w)) meta) in *.
    assert (metadata_json w1 !! id = Some meta1) as Hl
      by (rewrite Hm1; apply lookup_insert_eq).
    exists meta1, (pending_todos (m_todos meta1)). eexists.
    split; [apply resumeEngagement_known, Hl|]. split; [exact Hstatus|].
    split; [reflexivity|]. split; [exact Ht|]. split; [exact Hl|].
    unfold meta1, closed_record.
    destruct (cl_executive_summary params) as [s|]; [destruct (Js.truthy s)|];
      exact Hid.
Qed.

(** X6 on the example engagement: closed as paused, then resumed. *)
Lemma resume_keeps_the_record_witness :
  exists meta1 n w2,
    resumeEngagement "2026-03-01-test-corp"
      (snd (closeEngagement (mkCloseParams (Some close_paused) None) created_world))
    = (Ok (meta1, n), w2) /\
    m_status meta1 = paused /\
    active_record w2 "2026-03-01-test-corp" meta1.
Proof.
  pose proof (fun m => resume_keeps_the_record created_world "2026-03-01-test-corp" m)
    as T.
  edestruct T as [_ H]; [vm_compute; reflexivity|reflexivity|].
  apply (H (mkCloseParams (Some close_paused) None) ("2026-03-01-test-corp", paused));
    vm_compute; reflexivity.
Defined.

(** ** Generated ids *)















(** ** What every call keeps *)

Ltac unfold_call H :=
  unfold run_call in H;
  unfold discoverHost, updateHost, addFinding, updateFinding, addCredential,
    saveEvidence, logDeadEnd, addTodo, updateAttackPath, updateExecutiveSummary,
    logCommand, or_now in H;
  unfold_m.

(** The branches a call can take once the record is loaded. *)
Ltac call_branches H :=
  repeat match type of H with
    | context [list_find ?P ?l] => destruct (list_find P l) as [[? ?]|]
    | context [has_path_separator ?s] => destruct (has_path_separator s)
    | context [match af_cvss ?p with _ => _ end] => destruct (af_cvss p)
    | context [match uf_cvss ?p with _ => _ end] => destruct (uf_cvss p)
    | context [cvss_out_of_range ?c] => destruct (cvss_out_of_range c)
    | context [supplied (lc_started_at ?p)] => destruct (supplied (lc_started_at p))
    | context [supplied (lc_finished_at ?p)] => destruct (supplied (lc_finished_at p))
    end.

Lemma run_call_keeps c w w' id meta :
  active_record w id meta ->
  run_call c w = (Ok tt, w') ->
  exists meta',
    active_record w' id meta' /\
    same_engagement meta meta' /\
    index_entry_matches w' id.
Proof.
  intros Hact Hrun.
  pose proof (loadActiveMetadata_active w id meta Hact) as Hload.
  destruct Hact as (Hs & Ht & Hm & Hid).
  destruct c; unfold_call Hrun;
    try (destruct (has_path_separator _); [discriminate Hrun|]);
    rewrite Hload in Hrun; cbn beta iota in Hrun;
    call_branches Hrun; run_m_in Hrun; try discriminate Hrun;
    injection Hrun as <-;
    (eexists; split;
     [ split; [exact Hs|]; split; [exact Ht|]; split;
       [cbn; rewrite Hid; apply lookup_insert_eq|exact Hid]
     | split;
       [ repeat split
       | eapply index_entry_matches_intro;
         [cbn; rewrite Hid; apply lookup_insert_eq|exact Hid|reflexivity] ] ]).
Qed.

Lemma run_call_thrown c w e w' :
  run_call c w = (Throw e, w') -> w' = w.
Proof.
  intros Hrun.
  destruct (loadActiveMetadata_cases w) as [E|[[meta|] E]];
    destruct c; unfold_call Hrun;
    try (destruct (has_path_separator _); [injection Hrun as _ <-; reflexivity|]);
    rewrite E in Hrun; cbn beta iota in Hrun;
    call_branches Hrun; run_m_in Hrun; try discriminate Hrun;
    injection Hrun as _ <-; reflexivity.
Qed.

Lemma same_engagement_trans a b c :
  same_engagement a b -> same_engagement b c -> same_engagement a c.
Proof.
  unfold same_engagement. intros (?&?&?&?&?&?&?) (?&?&?&?&?&?&?).
  repeat split; congruence.
Qed.

(** X8.  Whatever calls are made while an engagement is active (host
    discovery and update, findings, credentials, evidence, dead ends, TODOs,
    attack path, executive summary, command log, in any number and order,
    some of them failing), it stays the active one, its record stays stored
    under its id with the id, target, scope, rules of engagement, status,
    creation time and schema version it had, and an index entry that is the
    projection of the record stays one. *)
Theorem calls_keep_the_engagement (calls : list Call) (w : World) (id : string)
    (meta : EngagementMetadata) :
  active_record w id meta ->
  exists meta',
    active_record (run_calls calls w) id meta' /\
    same_engagement meta meta' /\
    (index_entry_matches w id -> index_entry_matches (run_calls calls w) id).
Proof.
  revert w meta. induction calls as [|c calls IH]; intros w meta Hact.
  - exists meta. split; [exact Hact|]. split; [repeat split|]. auto.
  - cbn [run_calls]. destruct (run_call c w) as [[[]|e] w1] eqn:E; cbn [snd].
    + destruct (run_call_keeps c w w1 id meta Hact E) as (meta1 & Hact1 & Hsame1 & Hidx1).
      destruct (IH w1 meta1 Hact1) as (meta' & Hact' & Hsame' & Hidx').
      exists meta'. split; [exact Hact'|].
      split; [eapply same_engagement_trans; eassumption|]. auto.
    + apply run_call_thrown in E. subst w1. apply IH, Hact.
Qed.

(** X8 on the example engagement: a host, a rejected finding, a TODO, a
    note for an unknown host and an executive summary. *)
Lemma calls_keep_the_engagement_witness :
  exists meta',
    active_record
      (run_calls
         [call_discover_host ssh_first;
          call_add_finding (finding_with (Some 15%Q));
          call_add_todo (mkAddTodoParams "check 443" None);
          call_update_host (mkUpdateHostParams "10.9.9.9" enumeration "x");
          call_executive_summary "one host so far"]
         created_world)
      "2026-03-01-test-corp" meta' /\
    m_target meta' = "Test Corp" /\
    m_scope meta' = ["10.0.0.0/24"] /\
    m_status meta' = active.
Proof.
  pose proof (fun calls m =>
                calls_keep_the_engagement calls created_world
                  "2026-03-01-test-corp" m) as T.
  edestruct T as (meta' & Hact & Hsame & _);
    [repeat split; vm_compute; reflexivity|].
  exists meta'. split; [exact Hact|].
  destruct Hsame as (_ & Ht & Hsc & _ & Hst & _).
  rewrite <- Ht, <- Hsc, <- Hst. repeat split.
Defined.



(** ** Adding entries *)




(** ** Completing a TODO *)

Section Count.
Context {A : Type} (P : A -> Prop) `{!forall x, Decision (P x)}.

Lemma filter_insert_drop (l : list A) i x y :
  l !! i = Some x -> P x -> ~ P y ->
  S (length (filter P (<[i := y]> l))) = length (filter P l).
Proof.
  revert i. induction l as [|z l IH]; intros [|i] Hi Hx Hy; try discriminate Hi;
    csimpl in *.
  - injection Hi as ->.
    rewrite !filter_cons, decide_False, decide_True by assumption. reflexivity.
  - rewrite !filter_cons. destruct (decide (P z)); csimpl;
      rewrite <- (IH i Hi Hx Hy); reflexivity.
Qed.
End Count.

Lemma completeTodo_known w id meta tid i todo :
  active_record w id meta ->
  list_find (fun t => t_id t = tid) (m_todos meta) = Some (i, todo) ->
  let done := complete (clock w (tick w)) todo in
  let meta' :=
    set_updated_at (clock w (S (tick w)))
      (set_todos (<[i := done]> (m_todos meta)) meta) in
  exists w',
    completeTodo tid w = (inr done, w') /\
    active_record w' id meta' /\
    list_find (fun t => t_id t = tid) (m_todos meta') = Some (i, done) /\
    clock w' = clock w /\
    tick w' = S (S (tick w)).
Proof.
  intros Hact Hfind done meta'.
  pose proof (loadActiveMetadata_active w id meta Hact) as Hload.
  destruct Hact as (Hs & Ht & Hm & Hid).
  unfold completeTodo. rewrite Hload, Hfind. run_m.
  eexists. split; [reflexivity|]. split; [|split; [|split; reflexivity]].
  - split; [exact Hs|]. split; [exact Ht|]. split; [|exact Hid].
    cbn. rewrite Hid. apply lookup_insert_eq.
  - cbn [m_todos set_updated_at set_todos].
    apply list_find_insert_same with (x := todo); [exact Hfind|].
    apply list_find_Some in Hfind as (_ & Hx & _). exact Hx.
Qed.

(** X11.  [completeTodo] on a known id marks the first TODO of that id as
    completed and stamps it with the instant of the call; its id, text,
    priority and creation time stay, and so does every other TODO.  The
    number of pending TODOs goes down by one when it was pending and stays
    when it was not.  A TODO that is already completed is not refused:
    completing it again succeeds and replaces the completion time by the
    later instant. *)
Theorem completeTodo_restamps (w : World) (id : string) (meta : EngagementMetadata)
    (tid : string) (i : nat) (todo : Todo) :
  active_record w id meta ->
  list_find (fun t => t_id t = tid) (m_todos meta) = Some (i, todo) ->
  exists done w1 meta1 again w2,
    completeTodo tid w = (inr done, w1) /\
    t_status done = todo_completed /\
    t_completed_at done = Some (clock w (tick w)) /\
    t_id done = t_id todo /\
    t_description done = t_description todo /\
    t_priority done = t_priority todo /\
    t_created_at done = t_created_at todo /\
    active_record w1 id meta1 /\
    m_todos meta1 = <[i := done]> (m_todos meta) /\
    (forall j, j <> i -> m_todos meta1 !! j = m_todos meta !! j) /\
    pending_todos (m_todos meta1)
    = (pending_todos (m_todos meta)
       - (if decide (t_status todo = pending) then 1 else 0))%nat /\
    completeTodo tid w1 = (inr again, w2) /\
    t_status again = todo_completed /\
    t_completed_at again = Some (clock w (S (S (tick w)))).
Proof.
  intros Hact Hfind.
  destruct (completeTodo_known w id meta tid i todo Hact Hfind)
    as (w1 & Hrun1 & Hact1 & Hfind1 & Hclk & Htick).
  destruct (completeTodo_known w1 id _ tid i _ Hact1 Hfind1)
    as (w2 & Hrun2 & _).
  eexists _, w1, _, _, w2. split; [exact Hrun1|].
  split; [reflexivity|]. split; [reflexivity|]. split; [reflexivity|].
  split; [reflexivity|]. split; [reflexivity|]. split; [reflexivity|].
  split; [exact Hact1|]. split; [reflexivity|]. split.
  { intros j Hj. cbn. apply list_lookup_insert_ne. congruence. }
  split.
  { cbn [m_todos set_updated_at set_todos]. unfold pending_todos.
    apply list_find_Some in Hfind as (Hi & _).
    destruct (decide (t_status todo = pending)) as [Hp|Hp].
    - rewrite <- (filter_insert_drop _ (m_todos meta) i todo
                    (complete (clock w (tick w)) todo) Hi Hp) by discriminate.
      lia.
    - rewrite (filter_insert_out _ (m_todos meta) i todo
                 (complete (clock w (tick w)) todo) Hi Hp) by discriminate.
      lia. }
  split; [exact Hrun2|]. split; [reflexivity|].
  cbn. rewrite Hclk, Htick. reflexivity.
Qed.

(** X11 on the TODO of the example engagement, completed twice. *)
Lemma completeTodo_restamps_witness :
  exists done w1 again w2,
    completeTodo "T-001" one_todo_world = (inr done, w1) /\
    completeTodo "T-001" w1 = (inr again, w2) /\
    t_status again = todo_completed /\
    pending_todos
      (default [] (m_todos <$> metadata_json w1 !! "2026-03-01-test-corp")) = 0%nat.
Proof.
  pose proof (fun m i t =>
                completeTodo_restamps one_todo_world "2026-03-01-test-corp" m
                  "T-001" i t) as T.
  edestruct T
    as (done & w1 & meta1 & again & w2 & H1 & _ & _ & _ & _ & _ & _ & Hact & _ & _ &
        Hp & H2 & Hs & _);
    [repeat split; vm_compute; reflexivity|vm_compute; reflexivity|].
  exists done, w1, again, w2. split; [exact H1|]. split; [exact H2|].
  split; [exact Hs|].
  destruct Hact as (_ & _ & Hm & _). rewrite Hm.
  change (pending_todos (m_todos meta1) = 0%nat).
  rewrite Hp. vm_compute. reflexivity.
Defined.

(** ** The attack path *)

Lemma updateAttackPath_spec w id meta description :
  active_record w id meta ->
  let entry :=
    mkAttackPathStep (Z.of_nat (length (m_attack_path meta)) + 1) description
      (clock w (tick w)) in
  let meta' :=
    set_updated_at (clock w (S (tick w)))
      (set_attack_path (m_attack_path meta ++ [entry]) meta) in
  exists w',
    updateAttackPath description w = (Ok entry, w') /\
    active_record w' id meta'.
Proof.
  intros Hact entry meta'.
  pose proof (loadActiveMetadata_active w id meta Hact) as Hload.
  destruct Hact as (Hs & Ht & Hm & Hid).
  unfold updateAttackPath. unfold_m. rewrite Hload. run_m.
  eexists. split; [reflexivity|].
  split; [exact Hs|]. split; [exact Ht|]. split; [|exact Hid].
  cbn. rewrite Hid. apply lookup_insert_eq.
Qed.

Lemma attack_path_steps descriptions w id meta n :
  active_record w id meta ->
  ap_step <$> m_attack_path meta = Z.of_nat <$> seq 1 n ->
  exists meta',
    active_record (run_calls (call_attack_path <$> descriptions) w) id meta' /\
    ap_step <$> m_attack_path meta'
    = Z.of_nat <$> seq 1 (n + length descriptions) /\
    ap_description <$> m_attack_path meta'
    = (ap_description <$> m_attack_path meta) ++ descriptions.
Proof.
  revert w meta n. induction descriptions as [|d ds IH]; intros w meta n Hact Hsteps.
  - exists meta. split; [exact Hact|]. rewrite Nat.add_0_r, app_nil_r. auto.
  - destruct (updateAttackPath_spec w id meta d Hact) as (w' & Hrun & Hact').
    assert (length (m_attack_path meta) = n) as Hlen.
    { rewrite <- (length_fmap ap_step), Hsteps, length_fmap, length_seq. reflexivity. }
    cbn [fmap list_fmap run_calls run_call].
    change (list_fmap _ _ call_attack_path ds) with (call_attack_path <$> ds).
    unfold mbind at 1. unfold M_bind at 1. rewrite Hrun. cbn [snd mret M_ret].
    destruct (IH w' _ (S n) Hact') as (meta' & Hact'' & Hs' & Hd').
    { cbn [m_attack_path set_updated_at set_attack_path].
      rewrite fmap_app, Hsteps, seq_S, fmap_app. cbn. rewrite Hlen.
      do 3 f_equal. lia. }
    exists meta'. split; [exact Hact''|]. split.
    + rewrite Hs'. cbn [length]. do 2 f_equal. lia.
    + rewrite Hd'. cbn [m_attack_path set_updated_at set_attack_path].
      rewrite fmap_app, <- app_assoc. reflexivity.
Qed.

(** X12.  The steps of the attack path are numbered 1, 2, 3, ... without a
    gap: [updateAttackPath] gives a new step the number after the last, and
    after any series of calls on a record with an empty path the steps carry
    the numbers 1 to the number of calls and the descriptions in call
    order. *)
Theorem attack_path_is_numbered (w : World) (id : string) (meta : EngagementMetadata) :
  active_record w id meta ->
  (forall n description,
      ap_step <$> m_attack_path meta = Z.of_nat <$> seq 1 n ->
      exists entry w' meta',
        updateAttackPath description w = (Ok entry, w') /\
        ap_step entry = Z.of_nat (S n) /\
        active_record w' id meta' /\
        m_attack_path meta' = m_attack_path meta ++ [entry]) /\
  (forall descriptions,
      m_attack_path meta = [] ->
      exists meta',
        active_record (run_calls (call_attack_path <$> descriptions) w) id meta' /\
        ap_step <$> m_attack_path meta'
        = Z.of_nat <$> seq 1 (length descriptions) /\
        ap_description <$> m_attack_path meta' = descriptions).
Proof.
  intros Hact. split.
  - intros n d Hsteps.
    destruct (updateAttackPath_spec w id meta d Hact) as (w' & Hrun & Hact').
    eexists _, w', _. split; [exact Hrun|]. split; [|split; [exact Hact'|reflexivity]].
    cbn. rewrite <- (length_fmap ap_step), Hsteps, length_fmap, length_seq. lia.
  - intros ds Hempty.
    destruct (attack_path_steps ds w id meta 0 Hact) as (meta' & H1 & H2 & H3).
    { rewrite Hempty. reflexivity. }
    exists meta'. split; [exact H1|]. split; [exact H2|].
    rewrite H3, Hempty. reflexivity.
Qed.

(** X12 on the two steps of the test suite. *)
Lemma attack_path_is_numbered_witness :
  exists meta',
    active_record
      (run_calls [call_attack_path "Initial nmap scan"; call_attack_path "Discovered SQLi"]
         created_world)
      "2026-03-01-test-corp" meta' /\
    ap_step <$> m_attack_path meta' = [1; 2].
Proof.
  pose proof (fun m =>
                attack_path_is_numbered created_world "2026-03-01-test-corp" m) as T.
  edestruct T as [_ H]; [repeat split; vm_compute; reflexivity|].
  destruct (H ["Initial nmap scan"; "Discovered SQLi"] eq_refl) as (meta' & H1 & H2 & _).
  exists meta'. split; [exact H1|exact H2].
Defined.

(** ** The command log *)

















(** ** The hosts of the record *)












(** ** The status summary *)

Lemma bump_count sev s obj :
  count_of sev (bump s obj)
  = if decide (s = sev) then Some (S (default 0%nat (count_of sev obj)))
    else count_of sev obj.
Proof.
  unfold count_of, bump.
  destruct (list_find (fun kv => fst kv = s) obj) as [[i [k n]]|] eqn:E.
  - pose proof E as E'. apply list_find_Some in E' as (Hi & Hk & _).
    cbn [fst] in Hk. subst k. destruct (decide (s = sev)) as [<-|Hne].
    + rewrite (list_find_insert_same _ obj i (s, n) (s, S n) E eq_refl), E.
      reflexivity.
    + rewrite (list_find_insert_other _ obj i (s, n) (s, S n) Hi) by exact Hne.
      reflexivity.
  - destruct (decide (s = sev)) as [<-|Hne].
    + rewrite (list_find_snoc_None _ obj (s, 1%nat) E eq_refl), E. reflexivity.
    + rewrite list_find_snoc_other by exact Hne. reflexivity.
Qed.

Lemma sum_list_insert (l : list nat) i n m :
  l !! i = Some n -> (sum_list (<[i := m]> l) + n = sum_list l + m)%nat.
Proof.
  revert i. induction l as [|x l IH]; intros [|i] Hi; try discriminate Hi; csimpl in *.
  - injection Hi as ->. lia.
  - specialize (IH i Hi). lia.
Qed.

Lemma bump_sum s obj :
  sum_list (snd <$> bump s obj) = S (sum_list (snd <$> obj)) /\
  (NoDup (fst <$> obj) -> NoDup (fst <$> bump s obj)).
Proof.
  unfold bump.
  destruct (list_find (fun kv => fst kv = s) obj) as [[i [k n]]|] eqn:E.
  - apply list_find_Some in E as (Hi & Hk & _). cbn [fst] in Hk. subst k. split.
    + rewrite list_fmap_insert. cbn [snd].
      pose proof (sum_list_insert (snd <$> obj) i n (S n)) as H.
      rewrite list_lookup_fmap, Hi in H. specialize (H eq_refl). lia.
    + rewrite list_fmap_insert, list_insert_id; [auto|].
      rewrite list_lookup_fmap, Hi. reflexivity.
  - apply list_find_None in E. split.
    + rewrite fmap_app, sum_list_with_app. cbn. lia.
    + intros Hnd. rewrite fmap_app. apply NoDup_app. split; [exact Hnd|].
      split; [|apply NoDup_singleton].
      intros x Hx Hx'. apply list_elem_of_singleton in Hx'. cbn in Hx'. subst x.
      apply list_elem_of_fmap in Hx as (kv & Hkv & Hin).
      eapply Forall_forall in E; [|exact Hin]. congruence.
Qed.

Lemma fold_bump (fs : list Finding) obj :
  let result := fold_left (fun obj f => bump (f_severity f) obj) fs obj in
  (forall sev,
      count_of sev result
      = match length (filter (fun f => f_severity f = sev) fs) with
        | O => count_of sev obj
        | S k => Some (default 0%nat (count_of sev obj) + S k)%nat
        end) /\
  sum_list (snd <$> result) = (sum_list (snd <$> obj) + length fs)%nat /\
  (NoDup (fst <$> obj) -> NoDup (fst <$> result)).
Proof.
  revert obj. induction fs as [|f fs IH]; intros obj; cbn zeta.
  - split; [reflexivity|]. split; [cbn; lia|auto].
  - cbn [fold_left]. destruct (IH (bump (f_severity f) obj)) as (Hc & Hs & Hn).
    destruct (bump_sum (f_severity f) obj) as [Hs1 Hn1].
    split; [|split; [rewrite Hs, Hs1; cbn [length]; lia|auto]].
    intros sev. rewrite Hc, bump_count, filter_cons. cbv beta.
    destruct (decide (f_severity f = sev)) as [Heq|Hne]; cbn [length default].
    + destruct (length (filter _ fs)); cbn; f_equal; lia.
    + reflexivity.
Qed.

Lemma engagementStatus_spec w id meta :
  active_record w id meta ->
  engagementStatus w
  = (Ok (mkStatusSummary (m_id meta) (m_target meta) (m_status meta)
           (fold_left (fun obj f => bump (f_severity f) obj) (m_findings meta) [])
           (length (m_hosts meta)) (length (m_credentials meta))
           (length (m_evidence_index meta)) (length (m_command_log meta))
           (pending_todos (m_todos meta))
           ((fun s => (ap_step s, ap_description s))
              <$> slice_last 5 (m_attack_path meta))), w).
Proof.
  intros (Hs & Ht & Hm & Hid).
  unfold engagementStatus, requireActiveEngagement, getActiveEngagementId, getState,
    readMetadata. unfold_m. rewrite Hs. cbn. rewrite Ht, Hm. reflexivity.
Qed.

(** X16.  [engagementStatus] reads and writes nothing else.  Its findings
    by severity list each severity that has findings once, with the number of
    findings of that severity, and no severity that has none; the numbers add
    up to the number of findings.  The recent attack path is the last five
    steps in their order (all of them when there are fewer), the open TODOs
    are the pending ones, and when the index entry is the projection of the
    record, the counts of the entry that [listEngagements] marks as current
    are those of the summary. *)
Theorem status_counts_the_record (w : World) (id : string) (meta : EngagementMetadata) :
  active_record w id meta ->
  exists s,
    engagementStatus w = (Ok s, w) /\
    (forall sev,
        count_of sev (ss_findings_by_severity s)
        = match length (filter (fun f => f_severity f = sev) (m_findings meta)) with
          | O => None
          | n => Some n
          end) /\
    NoDup (fst <$> ss_findings_by_severity s) /\
    sum_list (snd <$> ss_findings_by_severity s) = length (m_findings meta) /\
    ss_recent_attack_path s
      `suffix_of` ((fun s => (ap_step s, ap_description s)) <$> m_attack_path meta) /\
    length (ss_recent_attack_path s) = Nat.min 5 (length (m_attack_path meta)) /\
    ss_open_todos s = pending_todos (m_todos meta) /\
    (index_entry_matches w id ->
     exists l e,
       listEngagements w = (Ok l, w) /\
       (e, true) ∈ l /\
       ie_id e = id /\
       finding_count e = sum_list (snd <$> ss_findings_by_severity s) /\
       host_count e = ss_host_count s /\
       credential_count e = ss_credential_count s /\
       command_count e = ss_command_count s).
Proof.
  intros Hact. eexists. split; [apply (engagementStatus_spec w id meta Hact)|].
  cbn [ss_findings_by_severity ss_recent_attack_path ss_open_todos ss_host_count
       ss_credential_count ss_command_count].
  destruct (fold_bump (m_findings meta) []) as (Hc & Hs & Hn). cbn zeta in *.
  split.
  { intros sev. rewrite Hc. destruct (length (filter _ (m_findings meta))); reflexivity. }
  split; [apply Hn, NoDup_nil_2|]. split; [exact Hs|].
  split; [unfold slice_last; rewrite fmap_drop; apply suffix_drop|].
  split; [rewrite length_fmap; unfold slice_last; rewrite length_drop; lia|].
  split; [reflexivity|].
  intros (meta0 & i & entry & Hm0 & Hfind & -> & _).
  destruct Hact as (Hst & _ & Hm & Hid). rewrite Hm in Hm0. injection Hm0 as <-.
  eexists _, (buildIndexEntry meta). split; [apply listEngagements_spec|].
  split.
  - apply list_elem_of_fmap. exists (buildIndexEntry meta). split.
    + rewrite Hst. cbn. rewrite Hid, bool_decide_eq_true_2; reflexivity.
    + apply list_find_Some in Hfind as (Hi & _). eapply list_elem_of_lookup_2, Hi.
  - split; [exact Hid|]. rewrite Hs. repeat split.
Qed.

(** X16 on the example engagement after a finding has been added. *)
Lemma status_counts_the_record_witness :
  exists s,
    engagementStatus one_finding_world = (Ok s, one_finding_world) /\
    sum_list (snd <$> ss_findings_by_severity s) = 1%nat.
Proof.
  pose proof (fun m =>
                status_counts_the_record one_finding_world "2026-03-01-test-corp" m)
    as T.
  edestruct T as (s & Hrun & _ & _ & Hsum & _);
    [repeat split; vm_compute; reflexivity|].
  exists s. split; [exact Hrun|]. rewrite Hsum. vm_compute. reflexivity.
Defined.

(** ** The index and the records over a session *)

Lemma same_origin_refl a : same_origin a a.
Proof. repeat split. Qed.

Lemma same_origin_trans a b c : same_origin a b -> same_origin b c -> same_origin a c.
Proof.
  unfold same_origin. intros (?&?&?&?&?) (?&?&?&?&?). repeat split; congruence.
Qed.

Lemma nothing_lost_refl w : nothing_lost w w.
Proof.
  split; [|reflexivity]. intros id meta H. exists meta. split; [exact H|].
  apply same_origin_refl.
Qed.

Lemma nothing_lost_trans a b c : nothing_lost a b -> nothing_lost b c -> nothing_lost a c.
Proof.
  intros [H1 P1] [H2 P2]. split; [|etransitivity; eassumption].
  intros id meta H. destruct (H1 id meta H) as (m1 & Hm1 & Ho1).
  destruct (H2 id m1 Hm1) as (m2 & Hm2 & Ho2).
  exists m2. split; [exact Hm2|]. eapply same_origin_trans; eassumption.
Qed.

Lemma same_files w w' :
  metadata_json w' = metadata_json w -> index_json w' = index_json w ->
  consistent w -> consistent w' /\ nothing_lost w w'.
Proof.
  intros Hm Hi Hc. unfold consistent, nothing_lost. rewrite Hm, Hi.
  split; [exact Hc|]. split; [|reflexivity].
  intros id meta H. exists meta. split; [exact H|apply same_origin_refl].
Qed.

Lemma loadActiveMetadata_Some w meta :
  loadActiveMetadata w = (Ok (Some meta), w) ->
  exists id,
    state_json w = Some (mkAppState (Some id)) /\
    Js.truthy id = true /\
    metadata_json w !! id = Some meta.
Proof.
  unfold loadActiveMetadata, requireActiveEngagement, getActiveEngagementId,
    getState, readMetadata. unfold_m.
  destruct (state_json w) as [[[id|]]|]; cbn; try discriminate.
  destruct (Js.truthy id) eqn:Ht; [|discriminate].
  intros [= H]. exists id. auto.
Qed.

(** A write through the save path, on a directory that is consistent. *)
Lemma consistent_save w w' id meta meta' :
  consistent w ->
  metadata_json w !! id = Some meta ->
  same_origin meta meta' ->
  metadata_json w' = <[id := meta']> (metadata_json w) ->
  index_json w'
  = Some (upsert_entry (buildIndexEntry meta') (default [] (index_json w))) ->
  consistent w' /\ nothing_lost w w'.
Proof.
  intros (Hnd & Hrec & Hent) Hm Ho Hmd Hix. cbv zeta in *.
  set (index := default [] (index_json w)) in *.
  destruct (Hrec id meta Hm) as [Hid Hin].
  assert (m_id meta' = id) as Hid' by (destruct Ho as [<- _]; exact Hid).
  apply list_elem_of_lookup in Hin as [i Hi].
  assert (list_find (fun e => ie_id e = ie_id (buildIndexEntry meta')) index
          = Some (i, buildIndexEntry meta)) as Hfind.
  { apply list_find_Some. split; [exact Hi|]. split; [cbn; congruence|].
    intros j y Hj Hlt Hy. assert (j = i); [|lia].
    eapply NoDup_lookup; [exact Hnd| |].
    - rewrite list_lookup_fmap, Hj. reflexivity.
    - rewrite list_lookup_fmap, Hi. cbn in *. congruence. }
  assert (default [] (index_json w') = <[i := buildIndexEntry meta']> index) as Hix'.
  { rewrite Hix. unfold upsert_entry. rewrite Hfind. reflexivity. }
  assert (ie_id <$> <[i := buildIndexEntry meta']> index = ie_id <$> index) as Hids.
  { rewrite list_fmap_insert. apply list_insert_id.
    rewrite list_lookup_fmap, Hi. cbn. congruence. }
  assert (i < length index)%nat as Hlt by (eapply lookup_lt_Some, Hi).
  split.
  - unfold consistent. rewrite Hix', Hmd, Hids. split; [exact Hnd|]. split.
    + intros id2 meta2 H2. destruct (decide (id = id2)) as [<-|Hne].
      * rewrite lookup_insert_eq in H2. injection H2 as <-. split; [exact Hid'|].
        eapply list_elem_of_lookup_2, list_lookup_insert_eq, Hlt.
      * rewrite lookup_insert_ne in H2 by exact Hne.
        destruct (Hrec id2 meta2 H2) as [Hid2 Hin2]. split; [exact Hid2|].
        apply list_elem_of_lookup in Hin2 as [j Hj].
        apply list_elem_of_lookup. exists j.
        rewrite list_lookup_insert_ne; [exact Hj|].
        intros <-. rewrite Hi in Hj.
        assert (ie_id (buildIndexEntry meta) = ie_id (buildIndexEntry meta2)) as He
          by congruence.
        cbn in He. congruence.
    + intros e He. apply list_elem_of_lookup in He as [j Hj].
      destruct (decide (j = i)) as [->|Hne].
      * rewrite list_lookup_insert_eq in Hj by exact Hlt. injection Hj as <-.
        cbn. rewrite Hid', lookup_insert_eq. eauto.
      * rewrite list_lookup_insert_ne in Hj by congruence.
        apply lookup_insert_is_Some'. right.
        apply Hent. eapply list_elem_of_lookup_2, Hj.
  - split.
    + intros id2 meta2 H2. rewrite Hmd. destruct (decide (id = id2)) as [<-|Hne].
      * exists meta'. rewrite lookup_insert_eq. split; [reflexivity|].
        rewrite Hm in H2. injection H2 as <-. exact Ho.
      * exists meta2. rewrite lookup_insert_ne by exact Hne.
        split; [exact H2|apply same_origin_refl].
    + rewrite Hix', Hids. reflexivity.
Qed.

(** A call that returns has written the record of the active engagement
    and its index entry, and nothing else of the two files. *)
Lemma run_call_shape c w w' id meta :
  active_record w id meta ->
  run_call c w = (Ok tt, w') ->
  exists meta',
    metadata_json w' = <[id := meta']> (metadata_json w) /\
    index_json w'
    = Some (upsert_entry (buildIndexEntry meta') (default [] (index_json w))) /\
    same_origin meta meta'.
Proof.
  intros Hact Hrun.
  pose proof (loadActiveMetadata_active w id meta Hact) as Hload.
  destruct Hact as (Hs & Ht & Hm & Hid).
  destruct c; unfold_call Hrun;
    try (destruct (has_path_separator _); [discriminate Hrun|]);
    rewrite Hload in Hrun; cbn beta iota in Hrun;
    call_branches Hrun; run_m_in Hrun; try discriminate Hrun;
    injection Hrun as <-;
    (eexists; split;
     [ cbn; rewrite Hid; reflexivity
     | split; [reflexivity|repeat split] ]).
Qed.

Lemma completeTodo_shape tid w r w' id meta :
  active_record w id meta ->
  completeTodo tid w = (r, w') ->
  w' = w \/
  exists meta',
    metadata_json w' = <[id := meta']> (metadata_json w) /\
    index_json w'
    = Some (upsert_entry (buildIndexEntry meta') (default [] (index_json w))) /\
    same_origin meta meta'.
Proof.
  intros Hact Hrun.
  pose proof (loadActiveMetadata_active w id meta Hact) as Hload.
  destruct Hact as (Hs & Ht & Hm & Hid).
  unfold completeTodo in Hrun. rewrite Hload in Hrun.
  destruct (list_find _ (m_todos meta)) as [[i todo]|];
    [|injection Hrun as _ <-; left; reflexivity].
  run_m_in Hrun. injection Hrun as _ <-. right.
  eexists. split; [cbn; rewrite Hid; reflexivity|].
  split; [reflexivity|repeat split].
Qed.

Lemma consistent_step op w :
  consistent w ->
  consistent (run_session_op op w) /\ nothing_lost w (run_session_op op w).
Proof.
  intros Hc. destruct op as [params|id|params|tid|c]; cbn [run_session_op].
  - destruct (createEngagement_spec params w)
      as (meta & w1 & Hrun & Hres & _ & _ & _ & _ & Hmd & Hix & _).
    rewrite Hrun. cbn [snd]. cbv zeta in *.
    destruct (resolve_id_spec (default [] (index_json w))
                (candidate_id (clock w (tick w)) (cp_target params)))
      as (id & Hres' & Hfresh & _).
    rewrite Hres in Hres'. injection Hres' as <-.
    destruct Hc as (Hnd & Hrec & Hent). cbv zeta in *.
    set (index := default [] (index_json w)) in *.
    assert (ie_id (buildIndexEntry meta) ∉ (ie_id <$> index)) as Hnew.
    { intros Hin. apply index_has_false_all in Hfresh.
      apply list_elem_of_fmap in Hin as (e & He & Hin).
      eapply Forall_forall in Hfresh; [|exact Hin]. cbn in He. congruence. }
    assert (metadata_json w !! m_id meta = None) as Hnone.
    { destruct (metadata_json w !! m_id meta) as [old|] eqn:E; [|reflexivity].
      exfalso. destruct (Hrec _ _ E) as [Hid Hin]. apply Hnew.
      apply list_elem_of_fmap. exists (buildIndexEntry old).
      split; [cbn; congruence|exact Hin]. }
    split.
    + unfold consistent. rewrite Hix, Hmd. cbn [default from_option Datatypes.id].
      split.
      { rewrite fmap_app. apply NoDup_app. split; [exact Hnd|].
        split; [|apply NoDup_singleton].
        intros x Hx Hx'. apply list_elem_of_singleton in Hx'. subst x.
        exact (Hnew Hx). }
      split.
      * intros id2 meta2 H2. destruct (decide (m_id meta = id2)) as [<-|Hne].
        -- rewrite lookup_insert_eq in H2. injection H2 as <-.
           split; [reflexivity|]. apply elem_of_app. right.
           apply list_elem_of_singleton. reflexivity.
        -- rewrite lookup_insert_ne in H2 by exact Hne.
           destruct (Hrec id2 meta2 H2) as [Hid2 Hin2]. split; [exact Hid2|].
           apply elem_of_app. left. exact Hin2.
      * intros e He. apply lookup_insert_is_Some'.
        apply elem_of_app in He as [He|He]; [right; apply Hent, He|].
        apply list_elem_of_singleton in He. subst e. left. reflexivity.
    + split.
      * intros id2 meta2 H2. exists meta2. rewrite Hmd, lookup_insert_ne.
        -- split; [exact H2|apply same_origin_refl].
        -- intros Heq. rewrite <- Heq, Hnone in H2. discriminate.
      * rewrite Hix. cbn [default from_option Datatypes.id].
        rewrite fmap_app. apply prefix_app_r. reflexivity.
  - destruct (metadata_json w !! id) as [meta|] eqn:E.
    + rewrite (resumeEngagement_known w id meta E). cbn [snd].
      apply same_files; [reflexivity|reflexivity|exact Hc].
    + rewrite (resumeEngagement_unknown w id E). cbn [snd].
      split; [exact Hc|apply nothing_lost_refl].
  - destruct (closeEngagement params w) as [[r|e] w'] eqn:Hrun; cbn [snd].
    + destruct (closeEngagement_spec params w r w' Hrun)
        as (id & meta & _ & Hm & _ & _ & _ & Hmd & Hix).
      cbv zeta in *. eapply consistent_save; [exact Hc|exact Hm| |exact Hmd|exact Hix].
      unfold closed_record.
      destruct (cl_executive_summary params) as [s|]; [destruct (Js.truthy s)|];
        repeat split.
    + assert (w' = w) as ->; [|split; [exact Hc|apply nothing_lost_refl]].
      revert Hrun. unfold closeEngagement. unfold mbind at 1. unfold M_bind at 1.
      destruct (requireActiveEngagement w) as [[id|e0] w0] eqn:Ereq.
      * apply requireActiveEngagement_same in Ereq. subst w0.
        unfold mbind at 1. unfold M_bind at 1. unfold readMetadata at 1. unfold gets.
        destruct (metadata_json w !! id) as [meta|].
        -- run_m.
           match goal with
           | |- context [foldr ?f ?z ?hosts ?w1] =>
               destruct (write_hosts_spec id hosts w1) as [hm E]
           end.
           unfold mbind, M_bind, writeHostMd, modify, mret, M_ret in E.
           rewrite E. discriminate.
        -- unfold_m. intros [= _ <-]. reflexivity.
      * apply requireActiveEngagement_same in Ereq. subst w0.
        intros [= _ <-]. reflexivity.
  - destruct (loadActiveMetadata_cases w) as [E|[[meta|] E]].
    + unfold completeTodo. rewrite E. cbn [snd].
      split; [exact Hc|apply nothing_lost_refl].
    + destruct (loadActiveMetadata_Some w meta E) as (id & Hs & Ht & Hm).
      assert (active_record w id meta) as Hact.
      { split; [exact Hs|]. split; [exact Ht|]. split; [exact Hm|].
        apply Hc in Hm. apply Hm. }
      destruct (completeTodo tid w) as [r w'] eqn:Hrun. cbn [snd].
      destruct (completeTodo_shape tid w r w' id meta Hact Hrun)
        as [->|(meta' & Hmd & Hix & Ho)].
      * split; [exact Hc|apply nothing_lost_refl].
      * eapply consistent_save; eassumption.
    + unfold completeTodo. rewrite E. cbn [snd].
      split; [exact Hc|apply nothing_lost_refl].
  - destruct (run_call c w) as [[[]|e] w'] eqn:Hrun; cbn [snd].
    + destruct (loadActiveMetadata_cases w) as [E|[[meta|] E]].
      * exfalso. revert Hrun. destruct c; unfold run_call;
          unfold discoverHost, updateHost, addFinding, updateFinding, addCredential,
            saveEvidence, logDeadEnd, addTodo, updateAttackPath,
            updateExecutiveSummary, logCommand; unfold_m;
          try (destruct (has_path_separator _); [discriminate|]);
          rewrite E; discriminate.
      * destruct (loadActiveMetadata_Some w meta E) as (id & Hs & Ht & Hm).
        assert (active_record w id meta) as Hact.
        { split; [exact Hs|]. split; [exact Ht|]. split; [exact Hm|].
          apply Hc in Hm. apply Hm. }
        destruct (run_call_shape c w w' id meta Hact Hrun) as (meta' & Hmd & Hix & Ho).
        eapply consistent_save; eassumption.
      * exfalso. revert Hrun. destruct c; unfold run_call;
          unfold discoverHost, updateHost, addFinding, updateFinding, addCredential,
            saveEvidence, logDeadEnd, addTodo, updateAttackPath,
            updateExecutiveSummary, logCommand; unfold_m;
          try (destruct (has_path_separator _); [discriminate|]);
          rewrite E; discriminate.
    + apply run_call_thrown in Hrun. subst w'.
      split; [exact Hc|apply nothing_lost_refl].
Qed.

(** X17.  Over any session (engagements created, resumed and closed, TODOs
    completed, tool calls made, some of them failing) the index and the
    records stay in agreement: the ids of the index stay distinct, every
    record is stored under its own id and has its projection in the index,
    and every index entry has a record.  No record is ever lost or
    overwritten by another engagement (it keeps its id, target, scope, rules
    of engagement and creation time) and no index entry goes or moves. *)
Theorem session_keeps_index_and_records (ops : list SessionOp) (w : World) :
  consistent w ->
  consistent (run_session ops w) /\ nothing_lost w (run_session ops w).
Proof.
  revert w. induction ops as [|op ops IH]; intros w Hc.
  - split; [exact Hc|apply nothing_lost_refl].
  - cbn [run_session]. destruct (consistent_step op w Hc) as [Hc1 Hl1].
    destruct (IH _ Hc1) as [Hc2 Hl2]. split; [exact Hc2|].
    eapply nothing_lost_trans; eassumption.
Qed.

(** X17 from the empty data directory: two engagements for the same target,
    a finding, a close and a resume. *)
Lemma session_keeps_index_and_records_witness :
  consistent
    (run_session
       [op_create_engagement test_corp;
        op_tool_call (call_add_finding (finding_with None));
        op_create_engagement test_corp;
        op_close_engagement (mkCloseParams None None);
        op_resume_engagement "2026-03-01-test-corp"]
       (empty_world noon)).
Proof.
  apply session_keeps_index_and_records.
  split; [apply NoDup_nil_2|]. split.
  - intros id meta H. vm_compute in H. discriminate H.
  - intros e H. vm_compute in H. apply elem_of_nil in H. destruct H.
Defined.

(** ** What a merge of services keeps *)

Lemma never_blanked_refl x : never_blanked x x.
Proof. repeat split; auto. Qed.

Lemma never_blanked_trans x y z :
  never_blanked x y -> never_blanked y z -> never_blanked x z.
Proof.
  intros ([? ?] & ? & ? & ?) ([? ?] & ? & ? & ?).
  repeat split; try congruence; auto.
Qed.

Lemma overwrite_service_never_blanks svc x : never_blanked x (overwrite_service svc x).
Proof.
  unfold never_blanked, same_endpoint.
  destruct (overwrite_service_endpoint svc x) as [Hp Hq].
  destruct (overwrite_service_fields svc x) as (-> & -> & ->).
  split; [split; assumption|].
  destruct (Js.truthy (svc_service svc)) eqn:E1, (Js.truthy (svc_version svc)) eqn:E2,
    (Js.truthy (svc_notes svc)) eqn:E3; repeat split; auto.
Qed.

Lemma merge_service_at merged svc i x :
  merged !! i = Some x ->
  exists y,
    merge_service merged svc !! i = Some y /\
    never_blanked x y /\
    (~ same_endpoint x svc -> y = x).
Proof.
  intros Hi. unfold merge_service.
  destruct (list_find _ merged) as [[j m]|] eqn:E.
  - apply list_find_Some in E as (Hj & Hm & _).
    destruct (decide (i = j)) as [->|Hne].
    + rewrite Hi in Hj. injection Hj as <-. exists (overwrite_service svc x).
      split; [apply list_lookup_insert_eq; eapply lookup_lt_Some, Hi|].
      split; [apply overwrite_service_never_blanks|]. intros H. destruct (H Hm).
    + exists x. rewrite list_lookup_insert_ne by congruence.
      split; [exact Hi|]. split; [apply never_blanked_refl|reflexivity].
  - exists x. split; [apply lookup_app_l_Some, Hi|].
    split; [apply never_blanked_refl|reflexivity].
Qed.

Lemma merge_service_prefix merged svc :
  endpoints merged `prefix_of` endpoints (merge_service merged svc) /\
  (svc_port svc, svc_proto svc) ∈ endpoints (merge_service merged svc) /\
  (forall e, e ∈ endpoints (merge_service merged svc) ->
             e ∈ endpoints merged \/ e = (svc_port svc, svc_proto svc)) /\
  (length (merge_service merged svc) <= S (length merged))%nat.
Proof.
  rewrite merge_service_endpoints. split; [|split; [|split]].
  - case_bool_decide; [reflexivity|apply prefix_app_r; reflexivity].
  - case_bool_decide as H; [exact H|].
    apply elem_of_app. right. apply list_elem_of_singleton. reflexivity.
  - intros e. case_bool_decide; [auto|]. intros He.
    apply elem_of_app in He as [He|He]; [auto|].
    apply list_elem_of_singleton in He. auto.
  - unfold merge_service. destruct (list_find _ merged) as [[j m]|].
    + rewrite length_insert. lia.
    + rewrite length_app. cbn. lia.
Qed.

Lemma prefix_elem_of {A : Type} (l k : list A) x : l `prefix_of` k -> x ∈ l -> x ∈ k.
Proof. intros [t ->] H. apply elem_of_app. auto. Qed.

(** X18.  [mergeServices] only adds: every existing entry stays at its
    position with its port and protocol, no field of it that had a value
    loses it, and an entry whose port and protocol are not among the incoming
    ones is untouched.  Every incoming port and protocol has an entry in the
    result, every entry of the result comes from one of the two lists, and
    the result is no longer than both lists together. *)
Theorem merge_only_adds (incoming existing : list Service) :
  let merged := mergeServices existing incoming in
  endpoints existing `prefix_of` endpoints merged /\
  (forall i x, existing !! i = Some x ->
     exists y, merged !! i = Some y /\ never_blanked x y /\
               ((svc_port x, svc_proto x) ∉ endpoints incoming -> y = x)) /\
  (forall svc, svc ∈ incoming -> (svc_port svc, svc_proto svc) ∈ endpoints merged) /\
  (forall e, e ∈ endpoints merged -> e ∈ endpoints existing \/ e ∈ endpoints incoming) /\
  (length merged <= length existing + length incoming)%nat.
Proof.
  cbv zeta. unfold mergeServices. revert existing.
  induction incoming as [|svc incoming IH]; intros existing; cbn [fold_left].
  - split; [reflexivity|]. split.
    + intros i x Hi. exists x. split; [exact Hi|].
      split; [apply never_blanked_refl|reflexivity].
    + split; [intros svc H; apply elem_of_nil in H; destruct H|].
      split; [auto|cbn; lia].
  - destruct (IH (merge_service existing svc)) as (Hpre & Hat & Hin & Hfrom & Hlen).
    destruct (merge_service_prefix existing svc) as (Hpre1 & Hin1 & Hfrom1 & Hlen1).
    split; [etransitivity; eassumption|]. split; [|split; [|split]].
    + intros i x Hi.
      destruct (merge_service_at existing svc i x Hi) as (y & Hy & Hb & Hsame).
      destruct (Hat i y Hy) as (z & Hz & Hb' & Hsame').
      exists z. split; [exact Hz|]. split; [eapply never_blanked_trans; eassumption|].
      intros Hnot. destruct Hb as ([Hp Hq] & _).
      assert (y = x) as ->.
      { apply Hsame. intros [Hp' Hq']. apply Hnot. unfold endpoints.
        cbn [fmap list_fmap]. rewrite Hp', Hq'. apply list_elem_of_here. }
      apply Hsame'. intros H. apply Hnot. unfold endpoints in *.
      cbn [fmap list_fmap]. apply list_elem_of_further. exact H.
    + intros s Hs. apply elem_of_cons in Hs as [->|Hs]; [|apply Hin, Hs].
      eapply prefix_elem_of; eassumption.
    + intros e He. destruct (Hfrom e He) as [H|H].
      * destruct (Hfrom1 e H) as [H1| ->]; [auto|].
        right. unfold endpoints. cbn [fmap list_fmap]. apply list_elem_of_here.
      * right. unfold endpoints in *. cbn [fmap list_fmap].
        apply list_elem_of_further. exact H.
    + cbn [length]. lia.
Qed.

(** ** The evidence index and the evidence files *)




(** ** Merging the same services again *)

Section FindClass.
Context {A : Type} (P : A -> Prop) `{!forall x, Decision (P x)}.



End FindClass.




















(** ** Ingesting tool output *)






















